(** * Dataset subset tools: creator and verifier

    A shallow embedding of [create_dataset_subset.py] and [verify_subset.py].

    Both scripts are straight-line Python over three external collaborators:
    the dataset store ([load_from_disk], [select], [save_to_disk]), the file
    system ([os.path.exists], [os.makedirs]) and numpy's seeded generator
    ([default_rng], [choice]).  The scripts are embedded as computations in a
    state-and-exception monad over a world made of the disk and the trace of
    observable events; Python integers are [Z], Python floats are binary64
    ([PrimFloat.float]), dictionaries that are iterated keep their order as
    association lists, and sets of field names are [gset string]. *)

From Stdlib Require Import ZArith QArith Qround Qabs Floats.
From stdpp Require Import gmap strings list sorting.

Set Warnings "-register-all,-inexact-float".
Local Open Scope Z_scope.

(** ** Python exceptions and results *)

Inductive exn : Type :=
  | ValueError
  | ZeroDivisionError
  | OverflowError
  | TypeError
  | IndexError
  | KeyError
  | FileNotFoundError
  | SystemExit (code : Z).

(** [except Exception] catches every exception above except [SystemExit],
    which derives from [BaseException]. *)
Definition is_Exception (e : exn) : bool :=
  match e with SystemExit _ => false | _ => true end.

Inductive result (A : Type) : Type :=
  | Ok (a : A)
  | Raise (e : exn).
Arguments Ok {A} a.
Arguments Raise {A} e.

#[export] Instance result_ret : MRet result := @Ok.
#[export] Instance result_bind : MBind result := λ A B f r,
  match r with Ok a => f a | Raise e => Raise e end.

(** ** Python values held by dataset records *)

Inductive value : Type :=
  | VNone
  | VBool (b : bool)
  | VInt (z : Z)
  | VFloat (f : float)
  | VStr (s : string)
  | VList (vs : list value)
  | VDict (kvs : list (string * value)).

Inductive pytype : Type := TNone | TBool | TInt | TFloat | TStr | TList | TDict.

#[export] Instance pytype_eq_dec : EqDecision pytype.
Proof. solve_decision. Defined.

(** [type(v)] *)
Definition type_of (v : value) : pytype :=
  match v with
  | VNone => TNone | VBool _ => TBool | VInt _ => TInt | VFloat _ => TFloat
  | VStr _ => TStr | VList _ => TList | VDict _ => TDict
  end.

(** [isinstance(v, list)], [isinstance(v, str)], [isinstance(v, (int, float))];
    [bool] is a subclass of [int]. *)
Definition is_list (v : value) : bool := bool_decide (type_of v = TList).
Definition is_str (v : value) : bool := bool_decide (type_of v = TStr).
Definition is_number (v : value) : bool :=
  match v with VBool _ | VInt _ | VFloat _ => true | _ => false end.

(** [x is None] *)
Definition is_None {A} (o : option A) : bool :=
  match o with None => true | Some _ => false end.

(** [len(l)] of a Python sequence held as a list. *)
Definition len {A} (l : list A) : Z := Z.of_nat (length l).

(** [len(v)]: defined on strings, lists and dicts, [TypeError] otherwise. *)
Definition py_len (v : value) : result Z :=
  match v with
  | VStr s => Ok (Z.of_nat (String.length s))
  | VList vs => Ok (len vs)
  | VDict kvs => Ok (len kvs)
  | _ => Raise TypeError
  end.

(** [l[i]] on a sequence: negative indices count from the end, anything
    outside [-len, len) raises [IndexError]. *)
Definition py_index {A} (l : list A) (i : Z) : result A :=
  let j := if i <? 0 then len l + i else i in
  if j <? 0 then Raise IndexError
  else match l !! Z.to_nat j with
       | Some x => Ok x
       | None => Raise IndexError
       end.

(** ** Python arithmetic used by the scripts *)

(** [sys.float_info.max] is [2^1024 - 2^971]; a real number rounds to a
    finite binary64 exactly when its magnitude is below [2^1024 - 2^970]. *)
Definition float_overflow_bound : Z := 2 ^ 1024 - 2 ^ 970.

(** [sys.maxsize]: no [len] is larger. *)
Definition sys_maxsize : Z := 2 ^ 63 - 1.

(** [a / b] on two [int]s (true division).  The quotient is kept as an exact
    rational, since it is only ever formatted for display; what is modelled
    is when the operation raises: division by zero, and a quotient that
    rounds outside the binary64 range. *)
Definition py_truediv (a b : Z) : result Q :=
  if b =? 0 then Raise ZeroDivisionError
  else if float_overflow_bound * Z.abs b <=? Z.abs a then Raise OverflowError
  else Ok (inject_Z a / inject_Z b)%Q.

(** [float(n)] for an [int]: correctly rounded, [OverflowError] when the
    integer is too large.  This is the implicit conversion of the left
    operand in [int * float]. *)
Definition float_of_int (n : Z) : result float :=
  match binary_normalize prec emax n 0 false with
  | S754_infinity _ => Raise OverflowError
  | s => Ok (SF2Prim s)
  end.

(** [n * x] with [n : int] and [x : float]. *)
Definition py_int_mul_float (n : Z) (x : float) : result float :=
  f ← float_of_int n; Ok (f * x)%float.

(** The integer part of the magnitude of a finite binary64 given by
    mantissa and exponent. *)
Definition sf_magnitude_floor (m : positive) (e : Z) : Z :=
  if 0 <=? e then Z.pos m * 2 ^ e else Z.pos m / 2 ^ (- e).

(** [int(x)] for a float: truncation towards zero; [ValueError] on NaN and
    [OverflowError] on an infinity. *)
Definition py_int (x : float) : result Z :=
  match Prim2SF x with
  | S754_nan => Raise ValueError
  | S754_infinity _ => Raise OverflowError
  | S754_zero _ => Ok 0
  | S754_finite s m e =>
      Ok (if s then - sf_magnitude_floor m e else sf_magnitude_floor m e)
  end.



(** [sorted(l)] on a list of integers. *)
Definition sorted (l : list Z) : list Z := merge_sort Z.le l.

(** ** The dataset store and the file system *)

(** A record is a Python dict from field name to value. *)
Definition record : Type := list (string * value).

(** [k in d] and [d[k]] on a dict held in insertion order. *)
Fixpoint dict_get (d : record) (k : string) : option value :=
  match d with
  | [] => None
  | (k', v) :: d' => if decide (k' = k) then Some v else dict_get d' k
  end.
Definition dict_contains (d : record) (k : string) : bool :=
  bool_decide (is_Some (dict_get d k)).
Definition dict_getitem (d : record) (k : string) : result value :=
  match dict_get d k with Some v => Ok v | None => Raise KeyError end.
(** [d.keys()], [d.items()] and [set(d.keys())] *)
Definition dict_keys (d : record) : list string := d.*1.
Definition dict_items (d : record) : list (string * value) := d.
Definition key_set (d : record) : gset string := list_to_set (dict_keys d).

Record Dataset : Type := mkDataset {
  features : list string;
  rows : list record;
}.

(** What a path can denote: a directory that is not a saved dataset, or a
    saved dataset.  Paths are opaque keys; regular files and the parents of
    a path are not represented. *)
Inductive node : Type :=
  | Directory
  | DatasetDir (d : Dataset).

(** Observable events of a run, in order: lines printed (as structured
    messages) and calls that reach the store or the file system. *)
Inductive event (Msg : Type) : Type :=
  | Print (m : Msg)
  | LoadFromDisk (path : string)
  | SelectRows (indices : list Z)
  | Makedirs (path : string)
  | SaveToDisk (path : string).
Arguments Print {Msg} m.
Arguments LoadFromDisk {Msg} path.
Arguments SelectRows {Msg} indices.
Arguments Makedirs {Msg} path.
Arguments SaveToDisk {Msg} path.

Record world (Msg : Type) : Type := mkWorld {
  disk : gmap string node;
  trace : list (event Msg);
}.
Arguments mkWorld {Msg} disk trace.
Arguments disk {Msg} w.
Arguments trace {Msg} w.

(** ** The monad of the scripts: state over the world, with exceptions *)

Definition M (Msg A : Type) : Type := world Msg → result A * world Msg.

#[export] Instance M_ret {Msg} : MRet (M Msg) := λ A a w, (Ok a, w).
#[export] Instance M_bind {Msg} : MBind (M Msg) := λ A B f m w,
  match m w with
  | (Ok a, w') => f a w'
  | (Raise e, w') => (Raise e, w')
  end.

Definition lift {Msg A} (r : result A) : M Msg A := λ w, (r, w).
Definition raise {Msg A} (e : exn) : M Msg A := lift (Raise e).

Definition emit {Msg} (ev : event Msg) : M Msg unit :=
  λ w, (Ok tt, mkWorld (disk w) (trace w ++ [ev])).
Definition print {Msg} (m : Msg) : M Msg unit := emit (Print m).

(** [try: body  except Exception as e: handler(e)] *)
Definition try_except {Msg A} (body : M Msg A) (handler : exn → M Msg A)
  : M Msg A := λ w,
  match body w with
  | (Raise e, w') => if is_Exception e then handler e w' else (Raise e, w')
  | r => r
  end.

Definition get_disk {Msg} : M Msg (gmap string node) :=
  λ w, (Ok (disk w), w).
Definition put_disk {Msg} (d : gmap string node) : M Msg unit :=
  λ w, (Ok tt, mkWorld d (trace w)).

(** What a computation returns and the events it adds, on a disk [d]. *)
Definition outcome {Msg A} (m : M Msg A) (d : gmap string node)
  : result A * list (event Msg) :=
  let '(r, w) := m (mkWorld d []) in (r, trace w).

(** A computation that leaves the disk alone and whose result and events do
    not depend on the trace so far. *)
Definition reads_only {Msg A} (m : M Msg A) : Prop :=
  ∀ w, m w = ((outcome m (disk w)).1,
              mkWorld (disk w) (trace w ++ (outcome m (disk w)).2)).

(** A computation all of whose exceptions [except Exception] catches. *)
Definition catchable {Msg A} (m : M Msg A) : Prop :=
  ∀ w e w', m w = (Raise e, w') → is_Exception e = true.

(** [os.path.exists(path)] *)
Definition path_exists {Msg} (path : string) : M Msg bool :=
  d ← get_disk; mret (bool_decide (is_Some (d !! path))).

(** [load_from_disk(path)]: succeeds exactly on a saved dataset. *)
Definition load_from_disk {Msg} (path : string) : M Msg Dataset :=
  emit (LoadFromDisk path);;
  d ← get_disk;
  match d !! path with
  | Some (DatasetDir ds) => mret ds
  | _ => raise FileNotFoundError
  end.

(** [os.makedirs(path, exist_ok=True)]: taken to succeed.  The disk is a
    flat map from paths to what they denote, so the parent directories the
    call would create, and its refusals (a path held by a plain file, a
    directory that is not writable), are not represented. *)
Definition makedirs {Msg} (path : string) : M Msg unit :=
  emit (Makedirs path);;
  d ← get_disk;
  match d !! path with
  | Some _ => mret tt
  | None => put_disk (<[path := Directory]> d)
  end.

(** [ds.save_to_disk(path)]: taken to succeed; refusals of the store itself
    (such as writing over the files a dataset is read from) are not
    represented. *)
Definition save_to_disk {Msg} (ds : Dataset) (path : string) : M Msg unit :=
  emit (SaveToDisk path);;
  d ← get_disk;
  put_disk (<[path := DatasetDir ds]> d).

(** [d.select(indices)]: the records at the given positions, in the order
    of the index list, under the same features.  The caller logs the call
    as a [SelectRows] event. *)
Definition select (d : Dataset) (indices : list Z) : result Dataset :=
  rs ← mapM (py_index (rows d)) indices;
  Ok (mkDataset (features d) rs).

(** Exit status of a script whose body is [m]: 0 on normal completion, the
    code of a [SystemExit], 1 for any other uncaught exception. *)
Definition exit_status {A} (r : result A) : Z :=
  match r with
  | Ok _ => 0
  | Raise (SystemExit c) => c
  | Raise _ => 1
  end.

(** ** numpy's seeded generator *)

(** What is assumed of [Generator.choice(a, size=k, replace=False)] once its
    argument checks pass: the sample drawn from a fresh generator is a
    function of the seed, has [k] elements of [range(a)], all distinct. *)
Class Sampler : Type := {
  draw : Z → Z → Z → list Z;
  draw_length seed a k : 0 ≤ k ≤ a → len (draw seed a k) = k;
  draw_range seed a k : 0 ≤ k ≤ a → Forall (λ i, 0 ≤ i < a) (draw seed a k);
  draw_NoDup seed a k : 0 ≤ k ≤ a → NoDup (draw seed a k);
}.

(** A generator freshly created from a seed. *)
Record rng : Type := mkRng { rng_seed : Z }.

(** [np.random.default_rng(seed=s)]: the seed must be non-negative. *)
Definition default_rng (seed : Z) : result rng :=
  if seed <? 0 then Raise ValueError else Ok (mkRng seed).

(** [g.choice(a, size=k, replace=False)] with an integer population:
    [ValueError] for an empty population unless no sample is taken, for a
    sample larger than the population, and for a negative size. *)
Definition choice `{Sampler} (g : rng) (a k : Z) : result (list Z) :=
  if (a <=? 0) && negb (k =? 0) then Raise ValueError
  else if a <? k then Raise ValueError
  else if k <? 0 then Raise ValueError
  else Ok (draw (rng_seed g) a k).

(** [for x in xs: body(x)] *)
Fixpoint for_each {Msg A} (xs : list A) (body : A → M Msg unit) : M Msg unit :=
  match xs with
  | [] => mret tt
  | x :: xs' => body x;; for_each xs' body
  end.

(** A [for] loop that updates one local variable. *)
Fixpoint for_fold {Msg A S} (xs : list A) (body : S → A → M Msg S) (s : S)
  : M Msg S :=
  match xs with
  | [] => mret s
  | x :: xs' => s' ← body s x; for_fold xs' body s'
  end.

(** [range(n)] *)
Definition range (n : Z) : list Z := seqZ 0 n.

(** * The subset creator, [create_dataset_subset.py] *)

Module Creator.

(** The lines the creator prints, by content. *)
Inductive message : Type :=
  | Loading (path : string)
  | OriginalSize (n : Z)
  | CreatingCount (n : Z) (percent : Q)
  | CreatingPercentage (n : Z) (percent : float)
  | Selected (n : Z)
  | Selecting
  | Saving (path : string)
  | Saved (n : Z) (path : string)
  | UsageError (text : string).

(** The block "Determine subset size" of [create_subset]: the new value of
    [subset_size] and the line printed once it is known.  Each branch
    evaluates its expressions, which may raise, before it prints. *)
Definition determine_subset_size (total_size : Z)
    (subset_size : option Z) (subset_percentage : option float)
  : result (Z * message) :=
  match subset_size with
  | Some subset_size =>
      let subset_size := Z.min subset_size total_size in
      ratio ← py_truediv subset_size total_size;
      Ok (subset_size, CreatingCount subset_size (ratio * 100)%Q)
  | None =>
      match subset_percentage with
      | Some subset_percentage =>
          x ← py_int_mul_float total_size subset_percentage;
          subset_size ← py_int x;
          Ok (subset_size,
              CreatingPercentage subset_size (subset_percentage * 100)%float)
      | None => Raise ValueError
      end
  end.


Definition create_subset `{Sampler} (dataset_path output_path : string)
    (subset_size : option Z) (subset_percentage : option float)
    (random_seed : Z) : M message unit :=
  print (Loading dataset_path);;
  dataset ← load_from_disk dataset_path;
  let total_size := len (rows dataset) in
  print (OriginalSize total_size);;
  '(subset_size, line) ←
    lift (determine_subset_size total_size subset_size subset_percentage);
  print line;;
  rng ← lift (default_rng random_seed);
  random_indices ← lift (choice rng total_size subset_size);
  let random_indices := sorted random_indices in
  print (Selected (len random_indices));;
  print Selecting;;
  emit (SelectRows random_indices);;
  subset ← lift (select dataset random_indices);
  makedirs output_path;;
  print (Saving output_path);;
  save_to_disk subset output_path;;
  print (Saved (len (rows subset)) output_path).

(** The events [create_subset] adds to the trace when it runs to the end. *)
Definition events_of_success (dataset_path output_path : string)
    (total_size : Z) (line : message) (indices : list Z) (subset : Dataset)
  : list (event message) :=
  [Print (Loading dataset_path); LoadFromDisk dataset_path;
   Print (OriginalSize total_size); Print line;
   Print (Selected (len indices)); Print Selecting; SelectRows indices;
   Makedirs output_path; Print (Saving output_path); SaveToDisk output_path;
   Print (Saved (len (rows subset)) output_path)].

(** The parsed command line. *)
Record args : Type := mkArgs {
  input : string;
  output : string;
  size : option Z;
  percentage : option float;
  seed : Z;
}.

(** [parser.error(text)]: prints the usage error and exits with status 2. *)
Definition parser_error (text : string) : M message unit :=
  print (UsageError text);;
  raise (SystemExit 2).

Definition main `{Sampler} (a : args) : M message unit :=
  (if is_None (size a) && is_None (percentage a)
   then parser_error "Either --size or --percentage must be provided"
   else mret tt);;
  (if negb (is_None (size a)) && negb (is_None (percentage a))
   then parser_error "Provide either --size OR --percentage, not both"
   else mret tt);;
  create_subset (input a) (output a) (size a) (percentage a) (seed a).

(** A sampler to run the model on: the first [k] residues of
    [seed, seed + 1, ...] modulo [a]. *)
Definition reference_draw (seed a k : Z) : list Z :=
  (λ i, (seed + i) mod a) <$> seqZ 0 k.

End Creator.

(** * The subset verifier, [verify_subset.py] *)

Module Verifier.

(** The lines of the report, by content. *)
Inductive message : Type :=
  | Header
  | CheckingDirectories
  | ErrOriginalNotFound (path : string)
  | OriginalFound (path : string)
  | ErrSubsetNotFound (path : string)
  | SubsetFound (path : string)
  | LoadingDatasets
  | OriginalLoaded (n : Z)
  | ErrLoadingOriginal (e : exn)
  | SubsetLoaded (n : Z)
  | ErrLoadingSubset (e : exn)
  | SizeComparison
  | OriginalSize (n : Z)
  | SubsetSize (n : Z)
  | Percentage (percent : Q)
  | WarnSubsetLarger
  | ErrSubsetEmpty
  | CheckingFeatures
  | FeaturesMatch (fs : gset string)
  | WarnFeaturesDiffer
  | OriginalFeatures (fs : gset string)
  | SubsetFeatures (fs : gset string)
  | MissingInSubset (fs : gset string)
  | ExtraInSubset (fs : gset string)
  | CheckingIntegrity
  | StructureMatches
  | WarnStructureDiffers
  | WarnTypeMismatch (key : string) (t1 t2 : pytype)
  | WarnEmptyList (key : string)
  | SampleValid
  | WarnSampleError (e : exn)
  | Displaying (n : Z)
  | SampleHeader (i : Z)
  | FieldPreview (key : string) (first : list value)
  | FieldListLength (key : string) (n : Z)
  | FieldFirstFew (first : list value)
  | FieldValue (key : string) (v : value)
  | WarnDisplayError (e : exn)
  | Summary (subset_size original_size : Z) (percent : Q).

(** Body of the loop over the fields of record 0 (check 6). *)
Definition check_field (original_sample subset_sample : record)
    (all_match : bool) (key : string) : M message bool :=
  if dict_contains subset_sample key then
    orig_val ← lift (dict_getitem original_sample key);
    sub_val ← lift (dict_getitem subset_sample key);
    all_match ←
      (if bool_decide (type_of orig_val ≠ type_of sub_val) then
         print (WarnTypeMismatch key (type_of orig_val) (type_of sub_val));;
         mret false
       else mret all_match);
    if is_list orig_val then
      sub_len ← lift (py_len sub_val);
      if sub_len =? 0 then
        orig_len ← lift (py_len orig_val);
        if 0 <? orig_len then print (WarnEmptyList key);; mret false
        else mret all_match
      else mret all_match
    else mret all_match
  else mret all_match.

(** Body of the loop over the fields of a previewed record (check 7). *)
Definition display_field (kv : string * value) : M message unit :=
  let '(key, value) := kv in
  match value with
  | VList vs =>
      first ← lift (py_index vs 0);
      if is_str first then
        if 5 <? len vs then print (FieldPreview key (take 5 vs))
        else print (FieldValue key value)
      else if is_number first then
        print (FieldListLength key (len vs));;
        print (FieldFirstFew (take 5 vs))
      else print (FieldListLength key (len vs))
  | _ => print (FieldValue key value)
  end.

(** Check 5: the feature sets; differences are only reported. *)
Definition check_features (original_dataset subset_dataset : Dataset)
  : M message unit :=
  print CheckingFeatures;;
  let original_features : gset string := list_to_set (features original_dataset) in
  let subset_features : gset string := list_to_set (features subset_dataset) in
  if bool_decide (original_features = subset_features) then
    print (FeaturesMatch original_features)
  else
    print WarnFeaturesDiffer;;
    print (OriginalFeatures original_features);;
    print (SubsetFeatures subset_features);;
    let missing := original_features ∖ subset_features in
    let extra := subset_features ∖ original_features in
    (if bool_decide (missing ≠ ∅) then print (MissingInSubset missing)
     else mret tt);;
    (if bool_decide (extra ≠ ∅) then print (ExtraInSubset extra)
     else mret tt).

(** The body of the [try] of check 6. *)
Definition check_sample_integrity (original_dataset subset_dataset : Dataset)
  : M message unit :=
  original_sample ← lift (py_index (rows original_dataset) 0);
  subset_sample ← lift (py_index (rows subset_dataset) 0);
  (if bool_decide (key_set original_sample = key_set subset_sample)
   then print StructureMatches
   else print WarnStructureDiffers);;
  all_match ← for_fold (dict_keys original_sample)
                (check_field original_sample subset_sample) true;
  if all_match : bool then print SampleValid else mret tt.

(** The body of the [try] of check 7. *)
Definition display_samples (subset_dataset : Dataset) (show_samples : Z)
  : M message unit :=
  for_each (range (Z.min show_samples (len (rows subset_dataset))))
    (λ i,
       print (SampleHeader (i + 1));;
       sample ← lift (py_index (rows subset_dataset) i);
       for_each (dict_items sample) display_field).

(** Checks 5 to 7 and the summary: what runs once the size checks passed. *)
Definition report_checks (original_dataset subset_dataset : Dataset)
    (show_samples : Z) (percentage : Q) : M message bool :=
  let original_size := len (rows original_dataset) in
  let subset_size := len (rows subset_dataset) in
  check_features original_dataset subset_dataset;;
  print CheckingIntegrity;;
  try_except (check_sample_integrity original_dataset subset_dataset)
    (λ e, print (WarnSampleError e));;
  (if 0 <? show_samples then
     print (Displaying show_samples);;
     try_except (display_samples subset_dataset show_samples)
       (λ e, print (WarnDisplayError e))
   else mret tt);;
  print (Summary subset_size original_size percentage);;
  mret true.

Definition verify_subset (original_path subset_path : string)
    (show_samples : Z) : M message bool :=
  print Header;;
  print CheckingDirectories;;
  found ← path_exists original_path;
  if negb found then
    print (ErrOriginalNotFound original_path);; mret false
  else
  print (OriginalFound original_path);;
  found ← path_exists subset_path;
  if negb found then
    print (ErrSubsetNotFound subset_path);; mret false
  else
  print (SubsetFound subset_path);;
  print LoadingDatasets;;
  loaded ← try_except
    (original_dataset ← load_from_disk original_path;
     print (OriginalLoaded (len (rows original_dataset)));;
     mret (Some original_dataset))
    (λ e, print (ErrLoadingOriginal e);; mret None);
  match loaded with
  | None => mret false
  | Some original_dataset =>
  loaded ← try_except
    (subset_dataset ← load_from_disk subset_path;
     print (SubsetLoaded (len (rows subset_dataset)));;
     mret (Some subset_dataset))
    (λ e, print (ErrLoadingSubset e);; mret None);
  match loaded with
  | None => mret false
  | Some subset_dataset =>
  print SizeComparison;;
  let original_size := len (rows original_dataset) in
  let subset_size := len (rows subset_dataset) in
  percentage ←
    (if 0 <? original_size then
       ratio ← lift (py_truediv subset_size original_size);
       mret (ratio * 100)%Q
     else mret 0%Q) : M message Q;
  print (OriginalSize original_size);;
  print (SubsetSize subset_size);;
  print (Percentage percentage);;
  if original_size <? subset_size then
    print WarnSubsetLarger;; mret false
  else if subset_size =? 0 then
    print ErrSubsetEmpty;; mret false
  else
    report_checks original_dataset subset_dataset show_samples percentage
  end
  end.

(** ** Vocabulary for the verifier's properties *)

(** What the verifier can find at a path. *)
Definition missing (d : gmap string node) (path : string) : Prop :=
  d !! path = None.
Definition load_fails (d : gmap string node) (path : string) : Prop :=
  d !! path = Some Directory.
Definition loads (d : gmap string node) (path : string) (ds : Dataset) : Prop :=
  d !! path = Some (DatasetDir ds).

(** The immediate-fail conditions: a missing path, a load error, a subset
    larger than the original, an empty subset. *)
Definition fail_condition (d : gmap string node)
    (original_path subset_path : string) : Prop :=
  missing d original_path ∨ missing d subset_path ∨
  load_fails d original_path ∨ load_fails d subset_path ∨
  ∃ o s, loads d original_path o ∧ loads d subset_path s ∧
         (len (rows o) < len (rows s) ∨ len (rows s) = 0).

(** A record one of whose fields holds an empty list. *)
Definition is_empty_list (v : value) : bool :=
  match v with VList [] => true | _ => false end.
Definition has_empty_list (r : record) : bool :=
  existsb (λ kv, is_empty_list kv.2) r.

(** The percentage the size comparison reports. *)
Definition reported_percentage (subset_size original_size : Z) : Q :=
  if 0 <? original_size
  then (inject_Z subset_size / inject_Z original_size * 100)%Q
  else 0%Q.

(** The events up to the end of each of the first checks, when it passes. *)
Definition events_found (original_path subset_path : string)
  : list (event message) :=
  [Print Header; Print CheckingDirectories;
   Print (OriginalFound original_path); Print (SubsetFound subset_path)].

Definition events_loaded (original_path subset_path : string)
    (o s : Dataset) : list (event message) :=
  events_found original_path subset_path ++
  [Print LoadingDatasets;
   LoadFromDisk original_path; Print (OriginalLoaded (len (rows o)));
   LoadFromDisk subset_path; Print (SubsetLoaded (len (rows s)))].

Definition events_sizes (original_path subset_path : string)
    (o s : Dataset) : list (event message) :=
  events_loaded original_path subset_path o s ++
  [Print SizeComparison; Print (OriginalSize (len (rows o)));
   Print (SubsetSize (len (rows s)));
   Print (Percentage (reported_percentage (len (rows s)) (len (rows o))))].

(** The events of check 5. *)
Definition events_features (o s : Dataset) : list (event message) :=
  let original_features : gset string := list_to_set (features o) in
  let subset_features : gset string := list_to_set (features s) in
  Print CheckingFeatures ::
  if bool_decide (original_features = subset_features) then
    [Print (FeaturesMatch original_features)]
  else
    [Print WarnFeaturesDiffer; Print (OriginalFeatures original_features);
     Print (SubsetFeatures subset_features)] ++
    (if bool_decide (original_features ∖ subset_features ≠ ∅)
     then [Print (MissingInSubset (original_features ∖ subset_features))]
     else []) ++
    (if bool_decide (subset_features ∖ original_features ≠ ∅)
     then [Print (ExtraInSubset (subset_features ∖ original_features))]
     else []).

(** The events of a [try] whose handler prints a warning: those of the
    body, then the warning if the body raised. *)
Definition events_guarded {A} (warn : exn → message)
    (body : result A * list (event message)) : list (event message) :=
  body.2 ++ match body.1 with
            | Raise e => [Print (warn e)]
            | Ok _ => []
            end.

(** The events of checks 5 to 7 and the summary. *)
Definition events_checks (d : gmap string node) (o s : Dataset)
    (show_samples : Z) (percentage : Q) : list (event message) :=
  events_features o s ++
  [Print CheckingIntegrity] ++
  events_guarded WarnSampleError (outcome (check_sample_integrity o s) d) ++
  (if 0 <? show_samples then
     Print (Displaying show_samples) ::
     events_guarded WarnDisplayError
       (outcome (display_samples s show_samples) d)
   else []) ++
  [Print (Summary (len (rows s)) (len (rows o)) percentage)].

(** The parsed command line. *)
Record args : Type := mkArgs {
  original : string;
  subset : string;
  samples : Z;
}.

(** [main] ends in [exit(0 if success else 1)]. *)
Definition main (a : args) : M message unit :=
  success ← verify_subset (original a) (subset a) (samples a);
  raise (SystemExit (if success : bool then 0 else 1)).

End Verifier.

(** * Sample data

    A small world to run both tools on. *)

Definition sample_rows : list record :=
  [ [("src", VStr "a"); ("tgt", VList [VInt 1; VInt 2])];
    [("src", VStr "b"); ("tgt", VList [VInt 3])];
    [("src", VStr "c"); ("tgt", VList [])];
    [("src", VStr "d"); ("tgt", VList [VInt 4])] ].

Definition sample_dataset : Dataset := mkDataset ["src"; "tgt"] sample_rows.
Definition empty_dataset : Dataset := mkDataset ["src"; "tgt"] [].

(** A subset with one more feature, whose record 0 holds an empty list. *)
Definition sample_subset : Dataset :=
  mkDataset ["src"; "tgt"; "extra"]
    [ [("src", VStr "c"); ("tgt", VList [])];
      [("src", VStr "d"); ("tgt", VList [VInt 4])] ].

(** A subset whose record 0 holds a number where the original has a list. *)
Definition mistyped_subset : Dataset :=
  mkDataset ["src"; "tgt"] [ [("src", VStr "a"); ("tgt", VInt 7)] ].

(** Ten records. *)
Definition ten_dataset : Dataset :=
  mkDataset ["src"] (replicate 10 [("src", VStr "a")]).

Definition sample_disk : gmap string node :=
  {[ "data" := DatasetDir sample_dataset;
     "sub" := DatasetDir sample_subset;
     "mistyped" := DatasetDir mistyped_subset;
     "ten" := DatasetDir ten_dataset;
     "empty" := DatasetDir empty_dataset;
     "dir" := Directory ]}.

Definition sample_world {Msg} : world Msg := mkWorld sample_disk [].

(** * Properties *)

(** ** The reference sampler meets the contract of [Sampler] *)

Lemma reference_draw_length seed a k :
  0 ≤ k ≤ a → len (Creator.reference_draw seed a k) = k.
Proof.
  intros Hk. unfold len, Creator.reference_draw.
  rewrite length_fmap, length_seqZ. lia.
Qed.

Lemma reference_draw_range seed a k :
  0 ≤ k ≤ a → Forall (λ i, 0 ≤ i < a) (Creator.reference_draw seed a k).
Proof.
  intros Hk. unfold Creator.reference_draw.
  apply Forall_fmap, Forall_forall. intros i Hi.
  apply elem_of_seqZ in Hi. simpl. apply Z.mod_pos_bound. lia.
Qed.

Lemma reference_draw_NoDup seed a k :
  0 ≤ k ≤ a → NoDup (Creator.reference_draw seed a k).
Proof.
  intros Hk. unfold Creator.reference_draw.
  apply NoDup_fmap_2_strong; [|apply NoDup_seqZ].
  intros i j Hi Hj Heq.
  apply elem_of_seqZ in Hi. apply elem_of_seqZ in Hj.
  assert (Ha : 0 < a) by lia.
  pose proof (Z.div_mod (seed + i) a ltac:(lia)) as Di.
  pose proof (Z.div_mod (seed + j) a ltac:(lia)) as Dj.
  rewrite Heq in Di.
  assert (i - j = a * ((seed + i) / a - (seed + j) / a)) as Hd by lia.
  generalize dependent ((seed + i) / a - (seed + j) / a). intros q Hq.
  assert (q = 0) by nia. subst q. lia.
Qed.

Definition reference_sampler : Sampler := {|
  draw := Creator.reference_draw;
  draw_length := reference_draw_length;
  draw_range := reference_draw_range;
  draw_NoDup := reference_draw_NoDup;
|}.

(** ** Running the monad *)

Section run.
Context {Msg : Type}.
Implicit Types w : world Msg.

Lemma run_bind {A B} (m : M Msg A) (f : A → M Msg B) w :
  (m ≫= f) w = match m w with
               | (Ok a, w') => f a w'
               | (Raise e, w') => (Raise e, w')
               end.
Proof. reflexivity. Qed.

Lemma run_ret {A} (a : A) w : (mret a : M Msg A) w = (Ok a, w).
Proof. reflexivity. Qed.

Lemma run_lift {A} (r : result A) w : lift r w = (r, w).
Proof. reflexivity. Qed.

Lemma run_raise {A} e w : (raise e : M Msg A) w = (Raise e, w).
Proof. reflexivity. Qed.

Lemma run_emit (ev : event Msg) w :
  emit ev w = (Ok tt, mkWorld (disk w) (trace w ++ [ev])).
Proof. reflexivity. Qed.

Lemma run_print (m : Msg) w :
  print m w = (Ok tt, mkWorld (disk w) (trace w ++ [Print m])).
Proof. reflexivity. Qed.

Lemma run_path_exists p w :
  path_exists p w = (Ok (bool_decide (is_Some (disk w !! p))), w).
Proof. reflexivity. Qed.

Lemma run_load_from_disk p w :
  load_from_disk p w =
    (match disk w !! p with
     | Some (DatasetDir ds) => Ok ds
     | _ => Raise FileNotFoundError
     end, mkWorld (disk w) (trace w ++ [LoadFromDisk p])).
Proof.
  unfold load_from_disk, mbind, M_bind, emit, get_disk. simpl.
  destruct (disk w !! p) as [[|ds]|]; reflexivity.
Qed.

Lemma run_makedirs p w :
  makedirs p w =
    (Ok tt, mkWorld (match disk w !! p with
                     | Some _ => disk w
                     | None => <[p := Directory]> (disk w)
                     end) (trace w ++ [Makedirs p])).
Proof.
  unfold makedirs, mbind, M_bind, emit, get_disk. simpl.
  destruct (disk w !! p); reflexivity.
Qed.

Lemma run_save_to_disk ds p w :
  save_to_disk ds p w =
    (Ok tt, mkWorld (<[p := DatasetDir ds]> (disk w)) (trace w ++ [SaveToDisk p])).
Proof. reflexivity. Qed.

End run.

Create Rewrite HintDb run.
#[local] Hint Rewrite @run_bind @run_ret @run_lift @run_raise @run_emit
  @run_print @run_path_exists @run_load_from_disk @run_makedirs
  @run_save_to_disk : run.

Ltac run := repeat (autorewrite with run; simpl).

(** ** Sorting, indexing and selecting *)

Lemma len_nonneg {A} (l : list A) : 0 ≤ len l.
Proof. unfold len. lia. Qed.

Lemma sorted_Sorted l : Sorted Z.le (sorted l).
Proof. apply Sorted_merge_sort. intros x y. lia. Qed.

Lemma sorted_Permutation l : sorted l ≡ₚ l.
Proof. apply merge_sort_Permutation. Qed.



Lemma sorted_Forall (P : Z → Prop) l : Forall P l → Forall P (sorted l).
Proof. by rewrite sorted_Permutation. Qed.

Lemma seqZ_Sorted m n : Sorted Z.le (seqZ m n).
Proof.
  destruct (decide (n ≤ 0)) as [|Hn]; [by rewrite seqZ_nil|].
  rewrite <-(Z2Nat.id n) by lia. generalize (Z.to_nat n) as k. clear.
  intros k. revert m. induction k as [|k IH]; intros m.
  { rewrite seqZ_nil by lia. constructor. }
  rewrite seqZ_cons by lia. constructor.
  - replace (Z.pred (Z.of_nat (S k))) with (Z.of_nat k) by lia. apply IH.
  - replace (Z.pred (Z.of_nat (S k))) with (Z.of_nat k) by lia.
    destruct k as [|k]; [rewrite seqZ_nil by lia; constructor|].
    rewrite seqZ_cons by lia. constructor. lia.
Qed.

(** A duplicate-free list of [n] indices below [n], once sorted, is
    [0, 1, ..., n - 1]. *)
Lemma sorted_full_range l n :
  NoDup l → Forall (λ i, 0 ≤ i < n) l → len l = n → sorted l = seqZ 0 n.
Proof.
  intros Hnd Hr Hl.
  apply (Sorted_unique Z.le); [apply sorted_Sorted|apply seqZ_Sorted|].
  rewrite sorted_Permutation.
  apply submseteq_length_Permutation.
  - apply NoDup_submseteq; [done|]. intros i Hi. apply elem_of_seqZ.
    rewrite Forall_forall in Hr. specialize (Hr i Hi). lia.
  - rewrite length_seqZ. unfold len in Hl. lia.
Qed.

Lemma py_index_in_range {A} (l : list A) i :
  0 ≤ i < len l → ∃ x, py_index l i = Ok x ∧ l !! Z.to_nat i = Some x.
Proof.
  intros Hi. unfold py_index.
  destruct (Z.ltb_spec i 0); [lia|].
  destruct (Z.ltb_spec i 0); [lia|].
  destruct (l !! Z.to_nat i) as [x|] eqn:Hx; [eauto|].
  apply lookup_ge_None in Hx. unfold len in Hi. lia.
Qed.

Lemma mapM_result_Forall2 {A B} (f : A → result B) l k :
  Forall2 (λ x y, f x = Ok y) l k → mapM f l = Ok k.
Proof.
  induction 1 as [|x y l k Hxy _ IH]; [done|].
  simpl. rewrite Hxy. simpl. by rewrite IH.
Qed.

Lemma select_in_range ds indices :
  Forall (λ i, 0 ≤ i < len (rows ds)) indices →
  ∃ rs, select ds indices = Ok (mkDataset (features ds) rs) ∧
        Forall2 (λ i r, rows ds !! Z.to_nat i = Some r) indices rs.
Proof.
  intros Hr.
  assert (∃ rs, Forall2 (λ i r, py_index (rows ds) i = Ok r
                                ∧ rows ds !! Z.to_nat i = Some r) indices rs)
    as [rs Hrs].
  { induction Hr as [|i l Hi _ [rs IH]]; [by exists []|].
    destruct (py_index_in_range (rows ds) i Hi) as (r & ? & ?).
    exists (r :: rs). by constructor. }
  exists rs. split.
  - unfold select. erewrite mapM_result_Forall2; [done|].
    eapply Forall2_impl; [done|]. by intros ?? [??].
  - eapply Forall2_impl; [done|]. by intros ?? [??].
Qed.

Lemma select_all ds : select ds (seqZ 0 (len (rows ds))) = Ok ds.
Proof.
  destruct ds as [fs rs]. unfold select. simpl.
  erewrite mapM_result_Forall2; [done|].
  apply Forall2_same_length_lookup. split.
  { rewrite length_seqZ. unfold len. lia. }
  intros n i r Hi Hr. apply lookup_seqZ in Hi as [-> Hn].
  destruct (py_index_in_range rs (0 + Z.of_nat n) ltac:(lia)) as (x & -> & Hx).
  replace (Z.to_nat (0 + Z.of_nat n)) with n in Hx by lia. congruence.
Qed.

(** ** The generator's argument checks *)

Section sampler.
Context `{Sampler}.

Lemma default_rng_nonneg seed : 0 ≤ seed → default_rng seed = Ok (mkRng seed).
Proof. intros. unfold default_rng. by destruct (Z.ltb_spec seed 0); [lia|]. Qed.

Lemma choice_in_range g a k :
  0 ≤ k ≤ a → choice g a k = Ok (draw (rng_seed g) a k).
Proof.
  intros Hk. unfold choice.
  destruct (Z.leb_spec a 0), (Z.eqb_spec k 0); simpl; try lia;
    destruct (Z.ltb_spec a k); try lia;
    destruct (Z.ltb_spec k 0); try lia; done.
Qed.

Lemma choice_too_large g a k : a < k → choice g a k = Raise ValueError.
Proof.
  intros Hk. unfold choice.
  destruct ((a <=? 0) && negb (k =? 0)); [done|].
  by destruct (Z.ltb_spec a k); [|lia].
Qed.

(** Whatever the arguments, a draw that succeeds is the sampler's. *)
Lemma choice_Ok g a k l : choice g a k = Ok l → l = draw (rng_seed g) a k.
Proof.
  unfold choice. intros Hc.
  destruct ((a <=? 0) && negb (k =? 0)); [done|].
  destruct (a <? k); [done|]. destruct (k <? 0); [done|]. congruence.
Qed.

Lemma choice_error g a k e : choice g a k = Raise e → e = ValueError.
Proof.
  unfold choice. intros Hc.
  destruct ((a <=? 0) && negb (k =? 0)); [congruence|].
  destruct (a <? k); [congruence|]. destruct (k <? 0); [congruence|done].
Qed.

End sampler.

(** ** The creator *)

Section creator.
Import Creator.
Context `{Sampler}.
Implicit Types w : world message.

Lemma create_subset_not_loaded dp op size pct seed w :
  (∀ ds, disk w !! dp ≠ Some (DatasetDir ds)) →
  create_subset dp op size pct seed w =
    (Raise FileNotFoundError,
     mkWorld (disk w) (trace w ++ [Print (Loading dp); LoadFromDisk dp])).
Proof.
  intros Hd. unfold create_subset. run.
  destruct (disk w !! dp) as [[|ds]|]; [| by destruct (Hd ds) |];
    simpl; by rewrite <-!(assoc_L (++)).
Qed.

Lemma create_subset_size_error dp op size pct seed w ds e :
  disk w !! dp = Some (DatasetDir ds) →
  determine_subset_size (len (rows ds)) size pct = Raise e →
  create_subset dp op size pct seed w =
    (Raise e,
     mkWorld (disk w) (trace w ++ [Print (Loading dp); LoadFromDisk dp;
                                   Print (OriginalSize (len (rows ds)))])).
Proof.
  intros Hd He. unfold create_subset. run. rewrite Hd. run. rewrite He.
  simpl. by rewrite <-!(assoc_L (++)).
Qed.

Lemma create_subset_draw_error dp op size pct seed w ds k line e :
  disk w !! dp = Some (DatasetDir ds) →
  determine_subset_size (len (rows ds)) size pct = Ok (k, line) →
  default_rng seed ≫= (λ g, choice g (len (rows ds)) k) = Raise e →
  create_subset dp op size pct seed w =
    (Raise e,
     mkWorld (disk w) (trace w ++ [Print (Loading dp); LoadFromDisk dp;
                                   Print (OriginalSize (len (rows ds)));
                                   Print line])).
Proof.
  intros Hd Hk He. unfold create_subset. run. rewrite Hd. run. rewrite Hk. run.
  destruct (default_rng seed) as [g|e']; simpl in He.
  - run. rewrite He. simpl. by rewrite <-!(assoc_L (++)).
  - simpl. rewrite <-!(assoc_L (++)). simpl. congruence.
Qed.

Lemma create_subset_select_error dp op size pct seed w ds k line indices e :
  disk w !! dp = Some (DatasetDir ds) →
  determine_subset_size (len (rows ds)) size pct = Ok (k, line) →
  default_rng seed ≫= (λ g, choice g (len (rows ds)) k) = Ok indices →
  select ds (sorted indices) = Raise e →
  create_subset dp op size pct seed w =
    (Raise e,
     mkWorld (disk w)
       (trace w ++ [Print (Loading dp); LoadFromDisk dp;
                    Print (OriginalSize (len (rows ds))); Print line;
                    Print (Selected (len (sorted indices))); Print Selecting;
                    SelectRows (sorted indices)])).
Proof.
  intros Hd Hk Hi He. unfold create_subset. run. rewrite Hd. run. rewrite Hk. run.
  destruct (default_rng seed) as [g|]; [|done]. simpl in Hi.
  run. rewrite Hi. run. rewrite He. simpl. by rewrite <-!(assoc_L (++)).
Qed.

Lemma create_subset_success dp op size pct seed w ds k line indices sub :
  disk w !! dp = Some (DatasetDir ds) →
  determine_subset_size (len (rows ds)) size pct = Ok (k, line) →
  default_rng seed ≫= (λ g, choice g (len (rows ds)) k) = Ok indices →
  select ds (sorted indices) = Ok sub →
  create_subset dp op size pct seed w =
    (Ok tt,
     mkWorld (<[op := DatasetDir sub]> (disk w))
       (trace w ++ events_of_success dp op (len (rows ds)) line
                     (sorted indices) sub)).
Proof.
  intros Hd Hk Hi Hs. unfold create_subset. run. rewrite Hd. run. rewrite Hk. run.
  destruct (default_rng seed) as [g|]; [|done]. simpl in Hi.
  run. rewrite Hi. run. rewrite Hs. run.
  rewrite <-!(assoc_L (++)). simpl.
  destruct (disk w !! op); [done|]. by rewrite insert_insert_eq.
Qed.

Lemma determine_subset_size_count total n pct k line :
  determine_subset_size total (Some n) pct = Ok (k, line) → k = Z.min n total.
Proof.
  unfold determine_subset_size.
  destruct (py_truediv (Z.min n total) total); simpl; congruence.
Qed.

Lemma py_truediv_zero a : py_truediv a 0 = Raise ZeroDivisionError.
Proof. reflexivity. Qed.

Lemma py_truediv_small a b :
  0 ≤ a ≤ b → 0 < b → py_truediv a b = Ok (inject_Z a / inject_Z b)%Q.
Proof.
  intros Ha Hb. unfold py_truediv.
  destruct (Z.eqb_spec b 0); [lia|].
  destruct (Z.leb_spec (float_overflow_bound * Z.abs b) (Z.abs a)); [|done].
  assert (1 < float_overflow_bound) by done. nia.
Qed.

(** The run of a creator whose resolved size fits the dataset. *)
Lemma create_subset_in_range dp op size pct seed w ds k line :
  disk w !! dp = Some (DatasetDir ds) →
  0 ≤ seed →
  determine_subset_size (len (rows ds)) size pct = Ok (k, line) →
  0 ≤ k ≤ len (rows ds) →
  let indices := sorted (draw seed (len (rows ds)) k) in
  ∃ rs,
    select ds indices = Ok (mkDataset (features ds) rs) ∧
    Forall2 (λ i r, rows ds !! Z.to_nat i = Some r) indices rs ∧
    create_subset dp op size pct seed w =
      (Ok tt,
       mkWorld (<[op := DatasetDir (mkDataset (features ds) rs)]> (disk w))
         (trace w ++ events_of_success dp op (len (rows ds)) line indices
                       (mkDataset (features ds) rs))).
Proof.
  intros Hd Hseed Hk Hr indices.
  destruct (select_in_range ds indices) as (rs & Hs & Hrs).
  { apply sorted_Forall, draw_range, Hr. }
  exists rs. split_and!; [done..|].
  eapply create_subset_success; [done..| |done].
  rewrite default_rng_nonneg by done. simpl. by rewrite choice_in_range.
Qed.


(** For a non-empty dataset, a count above the total selects everything. *)
Lemma create_subset_clamps_to_full dp op n pct seed w ds :
  disk w !! dp = Some (DatasetDir ds) →
  0 ≤ seed →
  0 < len (rows ds) < n →
  ∃ evs, create_subset dp op (Some n) pct seed w =
    (Ok tt, mkWorld (<[op := DatasetDir ds]> (disk w)) (trace w ++ evs)).
Proof.
  intros Hd Hseed Hn.
  assert (determine_subset_size (len (rows ds)) (Some n) pct =
          Ok (len (rows ds),
              CreatingCount (len (rows ds))
                (inject_Z (len (rows ds)) / inject_Z (len (rows ds)) * 100)%Q))
    as Hk.
  { unfold determine_subset_size. rewrite Z.min_r by lia.
    by rewrite py_truediv_small by lia. }
  destruct (create_subset_in_range dp op (Some n) pct seed w ds _ _ Hd Hseed Hk)
    as (rs & Hs & _ & Hrun); [lia|].
  rewrite (sorted_full_range _ (len (rows ds))) in Hs.
  - rewrite select_all in Hs. injection Hs as Hs.
    rewrite <-Hs in Hrun. eauto.
  - apply draw_NoDup. lia.
  - apply draw_range. lia.
  - apply draw_length. lia.
Qed.

(** C5: requesting a count above the total on an empty dataset does not
    complete: the progress line divides the clamped size by the total, so the
    run stops with [ZeroDivisionError] before anything is selected or saved. *)
Theorem create_subset_count_on_empty_dataset dp op n pct seed w ds :
  disk w !! dp = Some (DatasetDir ds) →
  rows ds = [] →
  0 < n →
  create_subset dp op (Some n) pct seed w =
    (Raise ZeroDivisionError,
     mkWorld (disk w) (trace w ++ [Print (Loading dp); LoadFromDisk dp;
                                   Print (OriginalSize 0)])).
Proof.
  intros Hd Hrows Hn.
  rewrite (create_subset_size_error dp op (Some n) pct seed w ds
             ZeroDivisionError Hd).
  - by rewrite Hrows.
  - by rewrite Hrows.
Qed.

(** C10: on the count path the resolved size never exceeds the total; the
    percentage path has no such bound (1.5 of 2 records resolves to 3), and
    whenever it resolves to more than the total the run stops with
    [ValueError] at the index draw, the disk unchanged and no directory
    created. *)
Theorem create_subset_percentage_over_total :
  (∀ total n pct k line,
     determine_subset_size total (Some n) pct = Ok (k, line) → k ≤ total) ∧
  (∃ k line,
     determine_subset_size 2 None (Some 1.5%float) = Ok (k, line) ∧ 2 < k) ∧
  (∀ dp op P seed w ds k line,
     disk w !! dp = Some (DatasetDir ds) →
     determine_subset_size (len (rows ds)) None (Some P) = Ok (k, line) →
     len (rows ds) < k →
     ∃ evs,
       create_subset dp op None (Some P) seed w =
         (Raise ValueError, mkWorld (disk w) (trace w ++ evs)) ∧
       (Makedirs op ∉ evs) ∧ (SaveToDisk op ∉ evs)).
Proof.
  split_and!.
  - intros total n pct k line Hk.
    apply determine_subset_size_count in Hk. lia.
  - eexists _, _. split; [reflexivity|done].
  - intros dp op P seed w ds k line Hd Hk Hlt.
    eexists. split.
    + eapply create_subset_draw_error; [done..|].
      unfold default_rng. destruct (seed <? 0); [done|]. simpl.
      by apply choice_too_large.
    + rewrite !not_elem_of_cons. split_and!; try done; apply not_elem_of_nil.
Qed.

(** C3: when the command line gives both [--size] and [--percentage], or
    neither, [main] stops in the argument check: the only event of the run
    is the usage error, the exit status is 2, and the disk is unchanged, so
    no dataset is loaded and no directory is created. *)
Theorem main_rejects_both_or_neither (a : args) w :
  is_None (size a) = is_None (percentage a) →
  ∃ text,
    main a w = (Raise (SystemExit 2),
                mkWorld (disk w) (trace w ++ [Print (UsageError text)])) ∧
    exit_status (main a w).1 = 2.
Proof.
  intros Hn. unfold main.
  destruct (size a), (percentage a); try discriminate; simpl.
  - by eexists.
  - by eexists.
Qed.

(** Called directly, [create_subset] itself checks less: with neither
    argument it fails only after loading, and with both it uses the count. *)
Lemma create_subset_neither dp op seed w ds :
  disk w !! dp = Some (DatasetDir ds) →
  create_subset dp op None None seed w =
    (Raise ValueError,
     mkWorld (disk w) (trace w ++ [Print (Loading dp); LoadFromDisk dp;
                                   Print (OriginalSize (len (rows ds)))])).
Proof. intros Hd. by eapply create_subset_size_error. Qed.

Lemma create_subset_both dp op n P seed w :
  create_subset dp op (Some n) (Some P) seed w =
  create_subset dp op (Some n) None seed w.
Proof. reflexivity. Qed.





End creator.

(** *** The creator's theorems at the sample data *)


Lemma create_subset_count_on_empty_dataset_witness :
  Creator.create_subset (H:=reference_sampler) "empty" "out" (Some 1) None 42
    sample_world =
  (Raise ZeroDivisionError,
   mkWorld sample_disk
     ([] ++ [Print (Creator.Loading "empty"); LoadFromDisk "empty";
             Print (Creator.OriginalSize 0)])).
Proof.
  apply (create_subset_count_on_empty_dataset (H:=reference_sampler)
           "empty" "out" 1 None 42 sample_world empty_dataset).
  - reflexivity.
  - reflexivity.
  - lia.
Defined.

Lemma create_subset_percentage_over_total_witness :
  ∃ evs,
    Creator.create_subset (H:=reference_sampler) "data" "out" None
      (Some 1.5%float) 42 sample_world =
      (Raise ValueError, mkWorld sample_disk ([] ++ evs)) ∧
    (Makedirs "out" ∉ evs) ∧ (SaveToDisk "out" ∉ evs).
Proof.
  apply (proj2 (proj2 (create_subset_percentage_over_total
                         (H:=reference_sampler)))
           "data" "out" 1.5%float 42 sample_world sample_dataset 6
           (Creator.CreatingPercentage 6 150%float)).
  - reflexivity.
  - reflexivity.
  - vm_compute. reflexivity.
Defined.

Lemma main_rejects_both_or_neither_witness :
  ∃ text,
    Creator.main (H:=reference_sampler)
      (Creator.mkArgs "data" "out" (Some 2) (Some 0.5%float) 42) sample_world =
      (Raise (SystemExit 2),
       mkWorld sample_disk ([] ++ [Print (Creator.UsageError text)])) ∧
    exit_status
      (Creator.main (H:=reference_sampler)
         (Creator.mkArgs "data" "out" (Some 2) (Some 0.5%float) 42)
         sample_world).1 = 2.
Proof.
  apply (main_rejects_both_or_neither (H:=reference_sampler)
           (Creator.mkArgs "data" "out" (Some 2) (Some 0.5%float) 42)
           sample_world).
  reflexivity.
Defined.



(** ** Computations that only read the disk *)

Section reads_only.
Context {Msg : Type}.
Implicit Types w : world Msg.
Implicit Types d : gmap string node.

Lemma outcome_ret {A} (a : A) d : outcome (mret a : M Msg A) d = (Ok a, []).
Proof. reflexivity. Qed.

Lemma outcome_lift {A} (r : result A) d : outcome (lift r : M Msg A) d = (r, []).
Proof. reflexivity. Qed.

Lemma outcome_print (m : Msg) d : outcome (print m) d = (Ok tt, [Print m]).
Proof. reflexivity. Qed.

Lemma reads_only_ret {A} (a : A) : reads_only (mret a : M Msg A).
Proof. intros [d t]. unfold outcome. simpl. by rewrite app_nil_r. Qed.

Lemma reads_only_lift {A} (r : result A) : reads_only (lift r : M Msg A).
Proof. intros [d t]. unfold outcome. simpl. by rewrite app_nil_r. Qed.

Lemma reads_only_raise {A} e : reads_only (raise e : M Msg A).
Proof. apply reads_only_lift. Qed.

Lemma reads_only_print (m : Msg) : reads_only (print m).
Proof. by intros [d t]. Qed.

Lemma outcome_bind {A B} (m : M Msg A) (f : A → M Msg B) d :
  reads_only m → (∀ a, reads_only (f a)) →
  outcome (m ≫= f) d =
    match outcome m d with
    | (Ok a, evs) => ((outcome (f a) d).1, evs ++ (outcome (f a) d).2)
    | (Raise e, evs) => (Raise e, evs)
    end.
Proof.
  intros Hm Hf. unfold outcome at 1. rewrite run_bind, (Hm (mkWorld d [])).
  simpl. destruct (outcome m d) as [[a|e] evs]; simpl; [|done].
  by rewrite (Hf a (mkWorld d evs)).
Qed.

Lemma reads_only_bind {A B} (m : M Msg A) (f : A → M Msg B) :
  reads_only m → (∀ a, reads_only (f a)) → reads_only (m ≫= f).
Proof.
  intros Hm Hf w. rewrite outcome_bind, run_bind, (Hm w) by done.
  destruct (outcome m (disk w)) as [[a|e] evs]; simpl; [|done].
  rewrite (Hf a). simpl. by rewrite (assoc_L (++)).
Qed.

Lemma outcome_try_except {A} (body : M Msg A) (handler : exn → M Msg A) d :
  reads_only body → (∀ e, reads_only (handler e)) →
  outcome (try_except body handler) d =
    match outcome body d with
    | (Raise e, evs) =>
        if is_Exception e
        then ((outcome (handler e) d).1, evs ++ (outcome (handler e) d).2)
        else (Raise e, evs)
    | r => r
    end.
Proof.
  intros Hm Hh. unfold outcome at 1, try_except. rewrite (Hm (mkWorld d [])).
  simpl. destruct (outcome body d) as [[a|e] evs]; simpl; [done|].
  destruct (is_Exception e); [|done]. by rewrite (Hh e (mkWorld d evs)).
Qed.

Lemma reads_only_try_except {A} (body : M Msg A) (handler : exn → M Msg A) :
  reads_only body → (∀ e, reads_only (handler e)) →
  reads_only (try_except body handler).
Proof.
  intros Hm Hh w. rewrite outcome_try_except by done.
  unfold try_except. rewrite (Hm w).
  destruct (outcome body (disk w)) as [[a|e] evs]; simpl; [done|].
  destruct (is_Exception e); [|done].
  rewrite (Hh e). simpl. by rewrite (assoc_L (++)).
Qed.

Lemma reads_only_for_each {A} (xs : list A) (body : A → M Msg unit) :
  (∀ x, reads_only (body x)) → reads_only (for_each xs body).
Proof.
  intros Hb. induction xs as [|x xs IH]; simpl.
  - apply reads_only_ret.
  - apply reads_only_bind; auto.
Qed.

Lemma reads_only_for_fold {A S} (xs : list A) (body : S → A → M Msg S) s :
  (∀ s x, reads_only (body s x)) → reads_only (for_fold xs body s).
Proof.
  intros Hb. revert s. induction xs as [|x xs IH]; intros s; simpl.
  - apply reads_only_ret.
  - apply reads_only_bind; auto.
Qed.

(** Catchable computations. *)

Lemma catchable_ret {A} (a : A) : catchable (mret a : M Msg A).
Proof. by intros w e w'. Qed.

Lemma catchable_print (m : Msg) : catchable (print m).
Proof. by intros w e w'. Qed.

Lemma catchable_lift {A} (r : result A) :
  (∀ e, r = Raise e → is_Exception e = true) → catchable (lift r : M Msg A).
Proof. intros Hr w e w' [= -> _]. by apply Hr. Qed.

Lemma catchable_bind {A B} (m : M Msg A) (f : A → M Msg B) :
  catchable m → (∀ a, catchable (f a)) → catchable (m ≫= f).
Proof.
  intros Hm Hf w e w'. rewrite run_bind.
  destruct (m w) as [[a|e1] w1] eqn:Hw.
  - apply Hf.
  - intros [= <- <-]. by eapply Hm.
Qed.

Lemma catchable_for_each {A} (xs : list A) (body : A → M Msg unit) :
  (∀ x, catchable (body x)) → catchable (for_each xs body).
Proof.
  intros Hb. induction xs as [|x xs IH]; simpl.
  - apply catchable_ret.
  - apply catchable_bind; auto.
Qed.

Lemma catchable_for_fold {A S} (xs : list A) (body : S → A → M Msg S) s :
  (∀ s x, catchable (body s x)) → catchable (for_fold xs body s).
Proof.
  intros Hb. revert s. induction xs as [|x xs IH]; intros s; simpl.
  - apply catchable_ret.
  - apply catchable_bind; auto.
Qed.

(** A [try] around a catchable body, with a handler that prints a warning,
    always completes. *)
Lemma run_try_warning (body : M Msg unit) (warn : exn → Msg) w :
  reads_only body → catchable body →
  try_except body (λ e, print (warn e)) w =
    (Ok tt,
     mkWorld (disk w)
       (trace w ++ (outcome body (disk w)).2 ++
          match (outcome body (disk w)).1 with
          | Raise e => [Print (warn e)]
          | Ok _ => []
          end)).
Proof.
  intros Hr Hc. unfold try_except. pose proof (Hc w) as Hc'.
  rewrite (Hr w) in Hc' |- *.
  destruct (outcome body (disk w)) as [[[]|e] evs]; simpl in *.
  - by rewrite app_nil_r.
  - rewrite (Hc' e _ eq_refl). rewrite run_print. simpl.
    by rewrite (assoc_L (++)).
Qed.

End reads_only.

Lemma py_index_error {A} (l : list A) i e : py_index l i = Raise e → e = IndexError.
Proof.
  unfold py_index. destruct (_ <? 0); [congruence|].
  destruct (l !! _); congruence.
Qed.

Lemma py_len_error v e : py_len v = Raise e → e = TypeError.
Proof. destruct v; simpl; congruence. Qed.

Lemma dict_getitem_error d k e : dict_getitem d k = Raise e → e = KeyError.
Proof. unfold dict_getitem. destruct (dict_get d k); congruence. Qed.

Ltac reads_only_step :=
  first
    [ apply reads_only_ret | apply reads_only_lift | apply reads_only_raise
    | apply reads_only_print
    | apply reads_only_bind; [|intros ?]
    | apply reads_only_for_each; intros ?
    | apply reads_only_for_fold; intros ? ?
    | match goal with
      | |- reads_only (if ?b then _ else _) => destruct b
      | |- reads_only (match ?x with _ => _ end) => destruct x
      end ].

Ltac catchable_step :=
  first
    [ apply catchable_ret | apply catchable_print
    | apply catchable_lift; intros ? ?;
        first [ erewrite (py_index_error _ _ _) by eassumption
              | erewrite (py_len_error _ _) by eassumption
              | erewrite (dict_getitem_error _ _ _) by eassumption ];
        reflexivity
    | apply catchable_bind; [|intros ?]
    | apply catchable_for_each; intros ?
    | apply catchable_for_fold; intros ? ?
    | match goal with
      | |- catchable (if ?b then _ else _) => destruct b
      | |- catchable (match ?x with _ => _ end) => destruct x
      end ].

(** ** The verifier *)

Section verifier.
Import Verifier.
Implicit Types w : world message.
Implicit Types d : gmap string node.
Implicit Types o s : Dataset.

Lemma check_field_reads_only orig sub all_match key :
  reads_only (check_field orig sub all_match key).
Proof. unfold check_field. repeat reads_only_step. Qed.

Lemma check_field_catchable orig sub all_match key :
  catchable (check_field orig sub all_match key).
Proof. unfold check_field. repeat catchable_step. Qed.

Lemma check_sample_integrity_reads_only o s :
  reads_only (check_sample_integrity o s).
Proof.
  unfold check_sample_integrity.
  repeat first [apply check_field_reads_only | reads_only_step].
Qed.

Lemma check_sample_integrity_catchable o s :
  catchable (check_sample_integrity o s).
Proof.
  unfold check_sample_integrity.
  repeat first [apply check_field_catchable | catchable_step].
Qed.

Lemma display_field_reads_only kv : reads_only (display_field kv).
Proof. unfold display_field. repeat reads_only_step. Qed.

Lemma display_field_catchable kv : catchable (display_field kv).
Proof. unfold display_field. repeat catchable_step. Qed.

Lemma display_samples_reads_only s n : reads_only (display_samples s n).
Proof.
  unfold display_samples.
  repeat first [apply display_field_reads_only | reads_only_step].
Qed.

Lemma display_samples_catchable s n : catchable (display_samples s n).
Proof.
  unfold display_samples.
  repeat first [apply display_field_catchable | catchable_step].
Qed.

Lemma run_check_features o s w :
  check_features o s w =
    (Ok tt, mkWorld (disk w) (trace w ++ events_features o s)).
Proof.
  unfold check_features, events_features. run.
  repeat case_bool_decide; run; by rewrite <-!(assoc_L (++)).
Qed.

Lemma run_report_checks o s n pct w :
  report_checks o s n pct w =
    (Ok true, mkWorld (disk w) (trace w ++ events_checks (disk w) o s n pct)).
Proof.
  unfold report_checks, events_checks, events_guarded.
  rewrite run_bind, run_check_features. simpl.
  rewrite run_bind, run_print. simpl.
  rewrite run_bind, run_try_warning
    by auto using check_sample_integrity_reads_only,
                  check_sample_integrity_catchable.
  simpl. rewrite run_bind.
  destruct (0 <? n).
  - rewrite run_bind, run_print. simpl.
    rewrite run_try_warning
      by auto using display_samples_reads_only, display_samples_catchable.
    simpl. run. by rewrite <-!(assoc_L (++)).
  - run. by rewrite <-!(assoc_L (++)).
Qed.

Lemma py_truediv_len a b :
  0 ≤ a → a ≤ b ∨ a ≤ sys_maxsize → 0 < b →
  py_truediv a b = Ok (inject_Z a / inject_Z b)%Q.
Proof.
  intros Ha Hab Hb. unfold py_truediv.
  destruct (Z.eqb_spec b 0); [lia|].
  destruct (Z.leb_spec (float_overflow_bound * Z.abs b) (Z.abs a)); [|done].
  assert (sys_maxsize < float_overflow_bound) by done.
  assert (0 < sys_maxsize) by done. nia.
Qed.

(** The run stops at the first check when the original path is missing. *)
Lemma run_verify_missing_original op sp n w :
  missing (disk w) op →
  verify_subset op sp n w =
    (Ok false,
     mkWorld (disk w)
       (trace w ++ [Print Header; Print CheckingDirectories;
                    Print (ErrOriginalNotFound op)])).
Proof.
  unfold missing. intros Hd. unfold verify_subset. run. rewrite Hd. simpl.
  run. by rewrite <-!(assoc_L (++)).
Qed.

Lemma run_verify_missing_subset op sp n w :
  ¬ missing (disk w) op → missing (disk w) sp →
  verify_subset op sp n w =
    (Ok false,
     mkWorld (disk w)
       (trace w ++ [Print Header; Print CheckingDirectories;
                    Print (OriginalFound op); Print (ErrSubsetNotFound sp)])).
Proof.
  unfold missing. intros Ho Hs. unfold verify_subset. run.
  destruct (disk w !! op) as [x|] eqn:Hop; [|done]. simpl.
  run. rewrite Hs. simpl. run. by rewrite <-!(assoc_L (++)).
Qed.

Lemma run_verify_load_fails_original op sp n w :
  load_fails (disk w) op → ¬ missing (disk w) sp →
  verify_subset op sp n w =
    (Ok false,
     mkWorld (disk w)
       (trace w ++ events_found op sp ++
          [Print LoadingDatasets; LoadFromDisk op;
           Print (ErrLoadingOriginal FileNotFoundError)])).
Proof.
  unfold load_fails, missing. intros Ho Hs. unfold verify_subset. run.
  rewrite Ho. simpl. run.
  destruct (disk w !! sp) as [x|] eqn:Hsp; [|done]. simpl.
  unfold try_except. run. rewrite Ho. simpl. run.
  by rewrite <-!(assoc_L (++)).
Qed.

Lemma run_verify_load_fails_subset op sp n w o :
  loads (disk w) op o → load_fails (disk w) sp →
  verify_subset op sp n w =
    (Ok false,
     mkWorld (disk w)
       (trace w ++ events_found op sp ++
          [Print LoadingDatasets; LoadFromDisk op;
           Print (OriginalLoaded (len (rows o))); LoadFromDisk sp;
           Print (ErrLoadingSubset FileNotFoundError)])).
Proof.
  unfold loads, load_fails. intros Ho Hs. unfold verify_subset. run.
  rewrite Ho. simpl. run. rewrite Hs. simpl.
  unfold try_except. run. rewrite Ho. simpl. run. rewrite Hs. simpl. run.
  by rewrite <-!(assoc_L (++)).
Qed.

(** Once both datasets are loaded, the sizes decide. *)
Lemma run_verify_loaded op sp n w o s :
  loads (disk w) op o → loads (disk w) sp s →
  len (rows o) = 0 ∨ len (rows s) ≤ len (rows o) ∨ len (rows s) ≤ sys_maxsize →
  verify_subset op sp n w =
    if len (rows o) <? len (rows s) then
      (Ok false,
       mkWorld (disk w)
         (trace w ++ events_sizes op sp o s ++ [Print WarnSubsetLarger]))
    else if len (rows s) =? 0 then
      (Ok false,
       mkWorld (disk w)
         (trace w ++ events_sizes op sp o s ++ [Print ErrSubsetEmpty]))
    else
      (Ok true,
       mkWorld (disk w)
         (trace w ++ events_sizes op sp o s ++
            events_checks (disk w) o s n
              (reported_percentage (len (rows s)) (len (rows o))))).
Proof.
  unfold loads. intros Ho Hs Hb. unfold verify_subset. run.
  rewrite Ho. simpl. run. rewrite Hs. simpl.
  unfold try_except. run. rewrite Ho. simpl. run. rewrite Hs. simpl. run.
  unfold events_sizes, events_loaded, events_found, reported_percentage.
  pose proof (len_nonneg (rows s)). pose proof (len_nonneg (rows o)).
  destruct (Z.ltb_spec 0 (len (rows o))) as [Hpos|Hzero].
  - run. rewrite py_truediv_len by (done || lia). run.
    destruct (len (rows o) <? len (rows s)).
    { run. by rewrite <-!(assoc_L (++)). }
    destruct (len (rows s) =? 0).
    { run. by rewrite <-!(assoc_L (++)). }
    rewrite run_report_checks. simpl. by rewrite <-!(assoc_L (++)).
  - run.
    destruct (len (rows o) <? len (rows s)).
    { run. by rewrite <-!(assoc_L (++)). }
    destruct (len (rows s) =? 0).
    { run. by rewrite <-!(assoc_L (++)). }
    rewrite run_report_checks. simpl. by rewrite <-!(assoc_L (++)).
Qed.

Lemma not_missing d p : ¬ missing d p ↔ is_Some (d !! p).
Proof. unfold missing. by rewrite not_eq_None_Some. Qed.

Ltac path_cases :=
  unfold missing, load_fails, loads in *;
  repeat match goal with
         | |- _ ∧ _ => split
         | |- ∀ _, _ => intro
         | |- _ → _ => intro
         end;
  simplify_eq; try done; try lia.

(** C2: [verify_subset] returns, and returns [true] exactly when no
    immediate-fail condition holds; under each fail condition the report
    ends with that condition's error line and nothing of the later checks
    runs.  (The subset's length is a [len], hence at most [sys.maxsize].) *)
Theorem verify_subset_verdict op sp n w :
  (∀ s, loads (disk w) sp s → len (rows s) ≤ sys_maxsize) →
  ∃ b evs,
    verify_subset op sp n w = (Ok b, mkWorld (disk w) (trace w ++ evs)) ∧
    (b = true ↔ ¬ fail_condition (disk w) op sp) ∧
    (missing (disk w) op →
     evs = [Print Header; Print CheckingDirectories;
            Print (ErrOriginalNotFound op)]) ∧
    (¬ missing (disk w) op → missing (disk w) sp →
     evs = [Print Header; Print CheckingDirectories;
            Print (OriginalFound op); Print (ErrSubsetNotFound sp)]) ∧
    (load_fails (disk w) op → ¬ missing (disk w) sp →
     evs = events_found op sp ++
           [Print LoadingDatasets; LoadFromDisk op;
            Print (ErrLoadingOriginal FileNotFoundError)]) ∧
    (∀ o, loads (disk w) op o → load_fails (disk w) sp →
     evs = events_found op sp ++
           [Print LoadingDatasets; LoadFromDisk op;
            Print (OriginalLoaded (len (rows o))); LoadFromDisk sp;
            Print (ErrLoadingSubset FileNotFoundError)]) ∧
    (∀ o s, loads (disk w) op o → loads (disk w) sp s →
     len (rows o) < len (rows s) →
     evs = events_sizes op sp o s ++ [Print WarnSubsetLarger]) ∧
    (∀ o s, loads (disk w) op o → loads (disk w) sp s →
     len (rows s) = 0 →
     evs = events_sizes op sp o s ++ [Print ErrSubsetEmpty]).
Proof.
  intros Hmax.
  destruct (disk w !! op) as [[|o]|] eqn:Ho.
  - (* the original is a directory that does not load *)
    destruct (disk w !! sp) as [x|] eqn:Hs.
    + eexists _, _. split.
      { apply run_verify_load_fails_original; unfold load_fails, missing;
          congruence. }
      split; [|path_cases].
      split; [done|]. intros []. right. right. by left.
    + eexists _, _. split.
      { apply run_verify_missing_subset; unfold missing; congruence. }
      split; [|path_cases].
      split; [done|]. intros []. right. by left.
  - (* the original loads *)
    destruct (disk w !! sp) as [[|s]|] eqn:Hs.
    + eexists _, _. split; [by eapply run_verify_load_fails_subset|].
      split; [|path_cases].
      split; [done|]. intros []. do 3 right. by left.
    + pose proof (len_nonneg (rows o)). pose proof (len_nonneg (rows s)).
      rewrite (run_verify_loaded op sp n w o s Ho Hs)
        by (right; right; by apply Hmax).
      destruct (Z.ltb_spec (len (rows o)) (len (rows s))) as [Hlt|Hle].
      { eexists _, _. split; [done|].
        split; [|path_cases].
        split; [done|]. intros []. do 4 right. exists o, s. auto. }
      destruct (Z.eqb_spec (len (rows s)) 0) as [Hz|Hnz].
      { eexists _, _. split; [done|].
        split; [|path_cases].
        split; [done|]. intros []. do 4 right. exists o, s. auto. }
      eexists _, _. split; [done|].
      split; [|path_cases].
      split; [|done]. intros _.
      intros [?|[?|[?|[?|(o' & s' & Ho' & Hs' & Hbad)]]]]; path_cases.
    + eexists _, _. split.
      { apply run_verify_missing_subset; unfold missing; congruence. }
      split; [|path_cases].
      split; [done|]. intros []. right. by left.
  - (* the original path is missing *)
    eexists _, _. split; [by apply run_verify_missing_original|].
    split; [|path_cases].
    split; [done|]. intros []. by left.
Qed.

(** When the sizes are in order the verdict is [true], whatever checks 5 to
    7 report. *)
Lemma run_verify_passes op sp n w o s :
  loads (disk w) op o → loads (disk w) sp s →
  0 < len (rows s) ≤ len (rows o) →
  verify_subset op sp n w =
    (Ok true,
     mkWorld (disk w)
       (trace w ++ events_sizes op sp o s ++
          events_checks (disk w) o s n
            (reported_percentage (len (rows s)) (len (rows o))))).
Proof.
  intros Ho Hs Hr.
  rewrite (run_verify_loaded op sp n w o s Ho Hs) by lia.
  destruct (Z.ltb_spec (len (rows o)) (len (rows s))); [lia|].
  by destruct (Z.eqb_spec (len (rows s)) 0); [lia|].
Qed.

Lemma elem_of_events_checks ev d o s n pct :
  ev ∈ events_features o s ∨
  ev ∈ events_guarded WarnSampleError (outcome (check_sample_integrity o s) d) ∨
  (0 < n ∧
   ev ∈ events_guarded WarnDisplayError (outcome (display_samples s n) d)) →
  ev ∈ events_checks d o s n pct.
Proof.
  unfold events_checks. rewrite !elem_of_app.
  intros [?|[?|[Hn ?]]]; [by left|by right; right; left|].
  do 3 right. left. destruct (Z.ltb_spec 0 n); [|lia].
  by apply elem_of_cons; right.
Qed.

(** C7: with both paths present, both datasets loaded and
    [0 < subset size ≤ original size], differing feature sets are reported
    as a warning that lists the fields missing from the subset and the
    fields extra in it (at least one of the two lists is not empty), and the
    verdict is [true] all the same. *)
Theorem feature_mismatch_only_warns op sp n w o s :
  loads (disk w) op o → loads (disk w) sp s →
  0 < len (rows s) ≤ len (rows o) →
  let original_features : gset string := list_to_set (features o) in
  let subset_features : gset string := list_to_set (features s) in
  original_features ≠ subset_features →
  ∃ evs,
    verify_subset op sp n w = (Ok true, mkWorld (disk w) (trace w ++ evs)) ∧
    Print WarnFeaturesDiffer ∈ evs ∧
    (original_features ∖ subset_features ≠ ∅ →
     Print (MissingInSubset (original_features ∖ subset_features)) ∈ evs) ∧
    (subset_features ∖ original_features ≠ ∅ →
     Print (ExtraInSubset (subset_features ∖ original_features)) ∈ evs) ∧
    (original_features ∖ subset_features ≠ ∅ ∨
     subset_features ∖ original_features ≠ ∅).
Proof.
  intros Ho Hs Hr fo fs Hne.
  eexists. split; [by apply run_verify_passes|].
  assert (∀ ev, ev ∈ events_features o s →
            ev ∈ events_sizes op sp o s ++
                 events_checks (disk w) o s n
                   (reported_percentage (len (rows s)) (len (rows o)))) as Hin.
  { intros ev Hev. apply elem_of_app. right.
    apply elem_of_events_checks. by left. }
  split_and!.
  - apply Hin. unfold events_features. fold fo fs.
    rewrite bool_decide_eq_false_2 by done.
    apply elem_of_cons. right. apply elem_of_cons. by left.
  - intros Hm. apply Hin. unfold events_features. fold fo fs.
    rewrite bool_decide_eq_false_2 by done.
    rewrite (bool_decide_eq_true_2 _ Hm).
    rewrite elem_of_cons, !elem_of_app. right. right. left.
    apply elem_of_cons. by left.
  - intros Hx. apply Hin. unfold events_features. fold fo fs.
    rewrite bool_decide_eq_false_2 by done.
    rewrite (bool_decide_eq_true_2 _ Hx).
    rewrite elem_of_cons, !elem_of_app. right. right. right.
    apply elem_of_cons. by left.
  - destruct (decide (fo ∖ fs = ∅)) as [Hm|]; [|by left].
    destruct (decide (fs ∖ fo = ∅)) as [Hx|]; [|by right].
    destruct Hne. apply set_eq. intros x. split; intros Hin'.
    + destruct (decide (x ∈ fs)) as [|Hout]; [done|].
      assert (x ∈ fo ∖ fs) as Hd by by apply elem_of_difference.
      rewrite Hm in Hd. by apply not_elem_of_empty in Hd.
    + destruct (decide (x ∈ fo)) as [|Hout]; [done|].
      assert (x ∈ fs ∖ fo) as Hd by by apply elem_of_difference.
      rewrite Hx in Hd. by apply not_elem_of_empty in Hd.
Qed.

(** C9: with an original of 0 records the verdict is always [false]; when
    the subset loads, the percentage reported is 0 rather than the quotient,
    whose division would raise, and the report ends with the "larger" warning
    or the "empty" error. *)
Theorem verify_empty_original op sp n w o :
  loads (disk w) op o → rows o = [] →
  ∃ evs,
    verify_subset op sp n w = (Ok false, mkWorld (disk w) (trace w ++ evs)) ∧
    ∀ s, loads (disk w) sp s →
      py_truediv (len (rows s)) (len (rows o)) = Raise ZeroDivisionError ∧
      Print (Percentage 0) ∈ evs ∧
      (0 < len (rows s) → last evs = Some (Print WarnSubsetLarger)) ∧
      (len (rows s) = 0 → last evs = Some (Print ErrSubsetEmpty)).
Proof.
  intros Ho Hrows.
  destruct (disk w !! sp) as [[|s]|] eqn:Hs.
  - eexists. split; [by eapply run_verify_load_fails_subset|].
    intros s' Hs'. unfold loads in Hs'. congruence.
  - assert (len (rows o) = 0) as Hlen by by rewrite Hrows.
    pose proof (len_nonneg (rows s)).
    assert (Print (Percentage 0) ∈ events_sizes op sp o s) as Hpct.
    { unfold events_sizes. apply elem_of_app. right.
      rewrite Hlen. unfold reported_percentage. simpl.
      rewrite !elem_of_cons. auto. }
    rewrite (run_verify_loaded op sp n w o s Ho Hs) by (by left).
    rewrite Hlen.
    destruct (Z.ltb_spec 0 (len (rows s))) as [Hpos|Hz].
    + exists (events_sizes op sp o s ++ [Print WarnSubsetLarger]).
      split; [done|]. intros s' Hs'.
      assert (s' = s) as -> by (unfold loads in *; congruence).
      split_and!; [done| |by rewrite last_snoc|lia].
      apply elem_of_app. by left.
    + destruct (Z.eqb_spec (len (rows s)) 0); [|lia].
      exists (events_sizes op sp o s ++ [Print ErrSubsetEmpty]).
      split; [done|]. intros s' Hs'.
      assert (s' = s) as -> by (unfold loads in *; congruence).
      split_and!; [done| |lia|by rewrite last_snoc].
      apply elem_of_app. by left.
  - eexists. split.
    { apply run_verify_missing_subset; unfold missing, loads in *; congruence. }
    intros s' Hs'. unfold loads in Hs'. congruence.
Qed.

(** *** What the preview raises *)

Lemma display_field_result kv d :
  (outcome (display_field kv) d).1 =
    if is_empty_list kv.2 then Raise IndexError else Ok tt.
Proof.
  destruct kv as [key v]. unfold outcome, display_field.
  destruct v as [| | | | |[|first rest]|]; simpl; try done.
  run. unfold py_index. simpl. run.
  destruct (is_str first); [by destruct (5 <? _)|].
  by destruct (is_number first).
Qed.

Lemma display_record_result (row : record) d :
  (outcome (for_each (dict_items row) display_field) d).1 =
    if has_empty_list row then Raise IndexError else Ok tt.
Proof.
  unfold dict_items. induction row as [|kv row IH]; [done|].
  simpl. rewrite outcome_bind
    by auto using display_field_reads_only, reads_only_for_each.
  pose proof (display_field_result kv d) as Hkv.
  destruct (outcome (display_field kv) d) as [[[]|e] evs]; simpl in *;
    destruct (is_empty_list kv.2); simpl; try congruence.
Qed.

Lemma display_rows_result (rs : list record) d (k : nat) (a : Z) :
  0 ≤ a → a + Z.of_nat k ≤ len rs →
  (outcome
     (for_each (seqZ a (Z.of_nat k))
        (λ i, print (SampleHeader (i + 1));;
              sample ← lift (py_index rs i);
              for_each (dict_items sample) display_field)) d).1 =
    if existsb has_empty_list (take k (drop (Z.to_nat a) rs))
    then Raise IndexError else Ok tt.
Proof.
  revert a. induction k as [|k IH]; intros a Ha Hk.
  { by rewrite seqZ_nil. }
  rewrite seqZ_cons by lia.
  replace (Z.pred (Z.of_nat (S k))) with (Z.of_nat k) by lia.
  destruct (py_index_in_range rs a ltac:(lia)) as (r & Hidx & Hr).
  rewrite (drop_S _ _ _ Hr). simpl.
  rewrite outcome_bind.
  2: { repeat first [apply display_field_reads_only | reads_only_step]. }
  2: { intros _. apply reads_only_for_each. intros i.
       repeat first [apply display_field_reads_only | reads_only_step]. }
  rewrite outcome_bind, outcome_print.
  2: apply reads_only_print.
  2: { intros _.
       repeat first [apply display_field_reads_only | reads_only_step]. }
  rewrite outcome_bind, outcome_lift, Hidx.
  2: apply reads_only_lift.
  2: { intros row. apply reads_only_for_each, display_field_reads_only. }
  simpl. pose proof (display_record_result r d) as Hrow.
  destruct (outcome (for_each (dict_items r) display_field) d)
    as [[[]|e] evs]; simpl in *;
    destruct (has_empty_list r); simpl; try congruence.
  rewrite IH by lia. by replace (Z.to_nat (Z.succ a)) with (S (Z.to_nat a)) by lia.
Qed.

Lemma display_samples_result s n d :
  (outcome (display_samples s n) d).1 =
    if existsb has_empty_list
         (take (Z.to_nat (Z.min n (len (rows s)))) (rows s))
    then Raise IndexError else Ok tt.
Proof.
  unfold display_samples, range.
  destruct (decide (Z.min n (len (rows s)) ≤ 0)) as [Hn|Hn].
  { rewrite seqZ_nil by done. by replace (Z.to_nat _) with 0%nat by lia. }
  rewrite <-(Z2Nat.id (Z.min n (len (rows s)))) at 1 by lia.
  rewrite display_rows_result by lia. done.
Qed.

(** C8: with the sizes in order the verdict is [true] whatever the two
    [try] blocks do: an exception raised by the integrity check of record 0
    is reported as a sample warning, one raised by the preview as a display
    warning; in particular a previewed record with an empty list-valued
    field makes the preview raise [IndexError], which is reported and does
    not fail the run. *)
Theorem try_blocks_only_warn op sp n w o s :
  loads (disk w) op o → loads (disk w) sp s →
  0 < len (rows s) ≤ len (rows o) →
  ∃ evs,
    verify_subset op sp n w = (Ok true, mkWorld (disk w) (trace w ++ evs)) ∧
    (∀ e, (outcome (check_sample_integrity o s) (disk w)).1 = Raise e →
          Print (WarnSampleError e) ∈ evs) ∧
    (∀ e, 0 < n →
          (outcome (display_samples s n) (disk w)).1 = Raise e →
          Print (WarnDisplayError e) ∈ evs) ∧
    (∀ (i : nat) row,
       Z.of_nat i < n → rows s !! i = Some row → has_empty_list row = true →
       (outcome (display_samples s n) (disk w)).1 = Raise IndexError ∧
       Print (WarnDisplayError IndexError) ∈ evs).
Proof.
  intros Ho Hs Hr.
  eexists. split; [by apply run_verify_passes|].
  assert (∀ e, 0 < n →
            (outcome (display_samples s n) (disk w)).1 = Raise e →
            Print (WarnDisplayError e) ∈
              events_sizes op sp o s ++
              events_checks (disk w) o s n
                (reported_percentage (len (rows s)) (len (rows o)))) as Hdisp.
  { intros e Hn He. apply elem_of_app. right.
    apply elem_of_events_checks. right. right. split; [done|].
    unfold events_guarded. rewrite He. apply elem_of_app. right.
    by apply list_elem_of_singleton. }
  split_and!.
  - intros e He. apply elem_of_app. right.
    apply elem_of_events_checks. right. left.
    unfold events_guarded. rewrite He. apply elem_of_app. right.
    by apply list_elem_of_singleton.
  - done.
  - intros i row Hi Hrow Hempty.
    assert ((outcome (display_samples s n) (disk w)).1 = Raise IndexError)
      as Hraise.
    { rewrite display_samples_result.
      rewrite (proj2 (existsb_exists _ _)); [done|].
      exists row. split; [|done].
      apply list_elem_of_In, list_elem_of_lookup. exists i.
      rewrite lookup_take_lt; [done|].
      apply lookup_lt_Some in Hrow. unfold len in *. lia. }
    split; [done|]. apply Hdisp; [lia|done].
Qed.

End verifier.

(** *** The verifier's theorems at the sample data *)

Lemma sample_loads path ds :
  Verifier.loads sample_disk path ds → len (rows ds) ≤ sys_maxsize.
Proof.
  unfold Verifier.loads, sample_disk. intros Hl.
  repeat (apply lookup_insert_Some in Hl as [[_ Hl]|[_ Hl]];
          [simplify_eq; done|]).
  apply lookup_singleton_Some in Hl as [_ Hl]. done.
Qed.

Lemma verify_subset_verdict_witness :
  ∃ b evs,
    Verifier.verify_subset "data" "sub" 3 sample_world =
      (Ok b, mkWorld sample_disk ([] ++ evs)) ∧
    (b = true ↔ ¬ Verifier.fail_condition sample_disk "data" "sub").
Proof.
  destruct (verify_subset_verdict "data" "sub" 3 sample_world)
    as (b & evs & Hrun & Hb & _).
  - intros s. apply sample_loads.
  - exists b, evs. split; [exact Hrun|exact Hb].
Defined.

Lemma feature_mismatch_only_warns_witness :
  ∃ evs,
    Verifier.verify_subset "data" "sub" 3 sample_world =
      (Ok true, mkWorld sample_disk ([] ++ evs)) ∧
    Print Verifier.WarnFeaturesDiffer ∈ evs ∧
    Print (Verifier.ExtraInSubset
             (list_to_set ["src"; "tgt"; "extra"] ∖ list_to_set ["src"; "tgt"]))
      ∈ evs.
Proof.
  destruct (feature_mismatch_only_warns "data" "sub" 3 sample_world
              sample_dataset sample_subset)
    as (evs & Hrun & Hwarn & _ & Hextra & _).
  - reflexivity.
  - reflexivity.
  - vm_compute. split; [reflexivity|discriminate].
  - apply (bool_decide_eq_false_1 _). vm_compute. reflexivity.
  - exists evs. split_and!; [exact Hrun|exact Hwarn|].
    apply Hextra. apply (bool_decide_eq_false_1 _). vm_compute. reflexivity.
Defined.

Lemma try_blocks_only_warn_witness :
  ∃ evs,
    Verifier.verify_subset "data" "sub" 3 sample_world =
      (Ok true, mkWorld sample_disk ([] ++ evs)) ∧
    (outcome (Verifier.display_samples sample_subset 3) sample_disk).1 =
      Raise IndexError ∧
    Print (Verifier.WarnDisplayError IndexError) ∈ evs.
Proof.
  destruct (try_blocks_only_warn "data" "sub" 3 sample_world
              sample_dataset sample_subset)
    as (evs & Hrun & _ & _ & Hempty).
  - reflexivity.
  - reflexivity.
  - vm_compute. split; [reflexivity|discriminate].
  - exists evs. split; [exact Hrun|].
    apply (Hempty 0%nat [("src", VStr "c"); ("tgt", VList [])]);
      reflexivity.
Defined.

Lemma verify_empty_original_witness :
  ∃ evs,
    Verifier.verify_subset "empty" "data" 3 sample_world =
      (Ok false, mkWorld sample_disk ([] ++ evs)) ∧
    Print (Verifier.Percentage 0) ∈ evs ∧
    last evs = Some (Print Verifier.WarnSubsetLarger).
Proof.
  destruct (verify_empty_original "empty" "data" 3 sample_world empty_dataset)
    as (evs & Hrun & Hs).
  - reflexivity.
  - reflexivity.
  - destruct (Hs sample_dataset eq_refl) as (_ & Hpct & Hlarger & _).
    exists evs. split_and!; [exact Hrun|exact Hpct|].
    apply Hlarger. reflexivity.
Defined.

(** The integrity check can raise too: a number where the original holds a
    list makes [len] raise [TypeError]; the run reports it and passes. *)
Example mistyped_subset_passes :
  (outcome (Verifier.check_sample_integrity sample_dataset mistyped_subset)
     sample_disk).1 = Raise TypeError ∧
  ∃ evs,
    Verifier.verify_subset "data" "mistyped" 3 sample_world =
      (Ok true, mkWorld sample_disk evs) ∧
    Print (Verifier.WarnSampleError TypeError) ∈ evs.
Proof.
  split; [reflexivity|].
  eexists. split; [vm_compute; reflexivity|].
  rewrite !elem_of_cons. auto 30.
Qed.

(** The exit status of the verifier follows the verdict. *)
Lemma verifier_main_exit_status (a : Verifier.args) w b w' :
  Verifier.verify_subset (Verifier.original a) (Verifier.subset a)
    (Verifier.samples a) w = (Ok b, w') →
  Verifier.main a w = (Raise (SystemExit (if b then 0 else 1)), w') ∧
  (exit_status (Verifier.main a w).1 = 0 ↔ b = true).
Proof.
  intros Hrun. unfold Verifier.main. rewrite run_bind, Hrun. simpl.
  split; [done|]. by destruct b.
Qed.

(** * Further properties of the two scripts *)

(** ** The creator: what a run leaves on the disk *)

Section creator_runs.
Import Creator.
Context `{Sampler}.
Implicit Types w : world message.

Lemma select_features ds indices sub :
  select ds indices = Ok sub → features sub = features ds.
Proof.
  unfold select. destruct (mapM _ indices); simpl; [|done].
  by intros [= <-].
Qed.

(** A run of [create_subset] is decided by what the input path denotes:
    either it saves one dataset at the output path, or it raises and never
    reaches [os.makedirs]. *)
Lemma create_subset_cases dp op size pct seed (x : option node) :
  ∃ (r : result unit) (evs : list (event message)) (saved : option Dataset),
    (∀ w, disk w !! dp = x →
       create_subset dp op size pct seed w =
         (r, mkWorld (match saved with
                      | Some sub => <[op := DatasetDir sub]> (disk w)
                      | None => disk w
                      end) (trace w ++ evs))) ∧
    match saved with
    | Some sub =>
        r = Ok tt ∧
        ∃ ds, x = Some (DatasetDir ds) ∧ features sub = features ds
    | None =>
        (∃ e, r = Raise e) ∧
        ∀ p, (Makedirs p ∉ evs) ∧ (SaveToDisk p ∉ evs)
    end.
Proof.
  assert (∀ (l : list (event message)) p,
            Forall (λ ev, match ev with
                          | Makedirs _ | SaveToDisk _ => False
                          | _ => True
                          end) l →
            (Makedirs p ∉ l) ∧ (SaveToDisk p ∉ l)) as Hnone.
  { intros l p Hl. rewrite Forall_forall in Hl.
    split; intros Hin; apply (Hl _ Hin). }
  destruct x as [[|ds]|].
  1,3: eexists (Raise FileNotFoundError), _, None; split;
         [intros w Hw; apply create_subset_not_loaded; congruence
         |split; [by eexists|intros p; apply Hnone; by repeat constructor]].
  destruct (determine_subset_size (len (rows ds)) size pct) as [[k line]|e]
    eqn:Hk.
  2: { eexists (Raise e), _, None. split.
       - intros w Hw. by eapply create_subset_size_error.
       - split; [by eexists|intros p; apply Hnone; by repeat constructor]. }
  destruct (default_rng seed ≫= (λ g, choice g (len (rows ds)) k))
    as [indices|e] eqn:Hi.
  2: { eexists (Raise e), _, None. split.
       - intros w Hw. by eapply create_subset_draw_error.
       - split; [by eexists|intros p; apply Hnone; by repeat constructor]. }
  destruct (select ds (sorted indices)) as [sub|e] eqn:Hs.
  - eexists (Ok tt), _, (Some sub). split.
    + intros w Hw. by eapply create_subset_success.
    + split; [done|]. exists ds. split; [done|]. by eapply select_features.
  - eexists (Raise e), _, None. split.
    + intros w Hw. by eapply create_subset_select_error.
    + split; [by eexists|intros p; apply Hnone; by repeat constructor].
Qed.

(** X2: running [create_subset] a second time with the same arguments,
    the output path being another path than the input, ends like the first
    run, prints and calls the same, and leaves the disk as the first run
    left it. *)
Theorem create_subset_rerun dp op size pct seed w :
  op ≠ dp →
  ∃ r evs d',
    create_subset dp op size pct seed w = (r, mkWorld d' (trace w ++ evs)) ∧
    create_subset dp op size pct seed (mkWorld d' (trace w ++ evs)) =
      (r, mkWorld d' ((trace w ++ evs) ++ evs)).
Proof.
  intros Hne.
  destruct (create_subset_cases dp op size pct seed (disk w !! dp))
    as (r & evs & saved & Hrun & _).
  eexists r, evs, _. split; [by apply Hrun|].
  rewrite Hrun; simpl.
  - destruct saved; [by rewrite insert_insert_eq|done].
  - destruct saved; [by rewrite lookup_insert_ne|done].
Qed.


(** X4: a negative count is not clamped up: on any loaded dataset the run
    raises before anything is selected and leaves the disk unchanged. *)
Theorem create_subset_negative_count dp op n pct seed w ds :
  disk w !! dp = Some (DatasetDir ds) →
  n < 0 →
  ∃ e evs,
    create_subset dp op (Some n) pct seed w =
      (Raise e, mkWorld (disk w) (trace w ++ evs)) ∧
    (e = ValueError ∨ e = OverflowError ∨ e = ZeroDivisionError) ∧
    ∀ indices, SelectRows indices ∉ evs.
Proof.
  intros Hd Hn. pose proof (len_nonneg (rows ds)) as Hlen.
  assert (∀ (l : list (event message)) indices,
            Forall (λ ev, match ev with SelectRows _ => False | _ => True end) l →
            SelectRows indices ∉ l) as Hnone.
  { intros l p Hl. rewrite Forall_forall in Hl. intros Hin. apply (Hl _ Hin). }
  destruct (determine_subset_size (len (rows ds)) (Some n) pct)
    as [[k line]|e] eqn:Hk.
  - pose proof (determine_subset_size_count _ _ _ _ _ Hk) as ->.
    eexists ValueError, _. split_and!.
    + eapply create_subset_draw_error; [done..|].
      destruct (default_rng seed) as [g|e] eqn:Hg; simpl.
      * unfold choice.
        destruct ((len (rows ds) <=? 0) && negb (Z.min n (len (rows ds)) =? 0));
          [done|].
        destruct (len (rows ds) <? Z.min n (len (rows ds))); [done|].
        by destruct (Z.ltb_spec (Z.min n (len (rows ds))) 0); [|lia].
      * unfold default_rng in Hg. destruct (seed <? 0); congruence.
    + by left.
    + intros indices. apply Hnone. by repeat constructor.
  - eexists e, _. split_and!.
    + by eapply create_subset_size_error.
    + unfold determine_subset_size, py_truediv in Hk.
      destruct (len (rows ds) =? 0); [simpl in Hk; naive_solver|].
      destruct (_ <=? _); simpl in Hk; naive_solver.
    + intros indices. apply Hnone. by repeat constructor.
Qed.

End creator_runs.

(** ** The creator followed by the verifier *)

Section creator_then_verifier.
Context `{Sampler}.




End creator_then_verifier.

(** ** The verifier only reads *)

Lemma reads_only_path_exists {Msg} p : reads_only (path_exists (Msg:=Msg) p).
Proof. intros [d t]. unfold outcome. simpl. by rewrite app_nil_r. Qed.

Lemma reads_only_load_from_disk {Msg} p :
  reads_only (load_from_disk (Msg:=Msg) p).
Proof.
  intros [d t]. unfold outcome. by rewrite !run_load_from_disk.
Qed.

Lemma verify_subset_reads_only op sp n :
  reads_only (Verifier.verify_subset op sp n).
Proof.
  unfold Verifier.verify_subset, Verifier.report_checks,
    Verifier.check_features.
  repeat lazymatch goal with
    | |- reads_only (mbind _ _) => apply reads_only_bind; [|intros ?]
    | |- reads_only (try_except _ _) =>
        apply reads_only_try_except; [|intros ?]
    | |- reads_only (print _) => apply reads_only_print
    | |- reads_only (mret _) => apply reads_only_ret
    | |- reads_only (path_exists _) => apply reads_only_path_exists
    | |- reads_only (load_from_disk _) => apply reads_only_load_from_disk
    | |- reads_only (lift _) => apply reads_only_lift
    | |- reads_only (Verifier.check_sample_integrity _ _) =>
        apply check_sample_integrity_reads_only
    | |- reads_only (Verifier.display_samples _ _) =>
        apply display_samples_reads_only
    | |- reads_only (if ?b then _ else _) => destruct b
    | |- reads_only (match ?x with _ => _ end) => destruct x
    end.
Qed.

(** X8: the verifier never writes: whatever it finds, a run leaves the disk
    as it was, and its result and report are the same from any earlier
    trace. *)
Theorem verify_subset_only_reads op sp n (w : world Verifier.message) :
  ∃ r evs,
    Verifier.verify_subset op sp n w = (r, mkWorld (disk w) (trace w ++ evs)) ∧
    ∀ t, Verifier.verify_subset op sp n (mkWorld (disk w) t) =
           (r, mkWorld (disk w) (t ++ evs)).
Proof.
  pose proof (verify_subset_reads_only op sp n) as Hr.
  eexists _, _. split; [apply Hr|]. intros t. apply (Hr (mkWorld (disk w) t)).
Qed.

Lemma verify_subset_returns op sp n (w : world Verifier.message) :
  (∀ s, Verifier.loads (disk w) sp s → len (rows s) ≤ sys_maxsize) →
  ∃ b w',
    Verifier.verify_subset op sp n w = (Ok b, w') ∧
    (b = true ↔ ¬ Verifier.fail_condition (disk w) op sp).
Proof.
  intros Hmax. unfold Verifier.fail_condition.
  destruct (disk w !! op) as [[|o]|] eqn:Ho;
    [destruct (disk w !! sp) as [x|] eqn:Hs
    |destruct (disk w !! sp) as [[|s]|] eqn:Hs|].
  - eexists _, _. split.
    { apply run_verify_load_fails_original;
        unfold Verifier.load_fails, Verifier.missing; congruence. }
    split; [done|]. intros []. right. right. by left.
  - eexists _, _. split.
    { apply run_verify_missing_subset; unfold Verifier.missing; congruence. }
    split; [done|]. intros []. right. by left.
  - eexists _, _. split; [by eapply run_verify_load_fails_subset|].
    split; [done|]. intros []. do 3 right. by left.
  - pose proof (len_nonneg (rows o)). pose proof (len_nonneg (rows s)).
    rewrite (run_verify_loaded op sp n w o s Ho Hs)
      by (right; right; by apply Hmax).
    destruct (Z.ltb_spec (len (rows o)) (len (rows s))) as [Hlt|Hle].
    { eexists _, _. split; [done|].
      split; [done|]. intros []. do 4 right. exists o, s. auto. }
    destruct (Z.eqb_spec (len (rows s)) 0) as [Hz|Hnz].
    { eexists _, _. split; [done|].
      split; [done|]. intros []. do 4 right. exists o, s. auto. }
    eexists _, _. split; [done|]. split; [|done]. intros _.
    unfold Verifier.missing, Verifier.load_fails, Verifier.loads.
    intros [?|[?|[?|[?|(o' & s' & Ho' & Hs' & Hbad)]]]];
      simplify_eq; lia.
  - eexists _, _. split.
    { apply run_verify_missing_subset; unfold Verifier.missing; congruence. }
    split; [done|]. intros []. right. by left.
  - eexists _, _. split; [by apply run_verify_missing_original|].
    split; [done|]. intros []. by left.
Qed.

(** X9: the verifier's [main] always ends in [exit]: with status 0 when no
    immediate-fail condition holds and with status 1 when one does. *)
Theorem verifier_main_exit (a : Verifier.args) (w : world Verifier.message) :
  (∀ s, Verifier.loads (disk w) (Verifier.subset a) s →
        len (rows s) ≤ sys_maxsize) →
  ∃ code w',
    Verifier.main a w = (Raise (SystemExit code), w') ∧
    (¬ Verifier.fail_condition (disk w) (Verifier.original a)
         (Verifier.subset a) → code = 0) ∧
    (Verifier.fail_condition (disk w) (Verifier.original a)
       (Verifier.subset a) → code = 1).
Proof.
  intros Hmax.
  destruct (verify_subset_returns (Verifier.original a) (Verifier.subset a)
              (Verifier.samples a) w Hmax) as (b & w' & Hrun & Hb).
  destruct (verifier_main_exit_status a w b w' Hrun) as [Hmain _].
  eexists _, _. split; [exact Hmain|].
  destruct b; split; try done.
  - intros Hfail. by apply Hb in Hfail.
  - intros Hok. apply Hb in Hok. done.
Qed.

(** ** The integrity check of record 0 *)

Section integrity.
Import Verifier.
Implicit Types d : gmap string node.

(** The warnings the loop over the fields can print. *)
Definition is_field_warning (ev : event message) : Prop :=
  match ev with
  | Print (WarnTypeMismatch _ _ _) | Print (WarnEmptyList _) => True
  | _ => False
  end.

Lemma dict_get_key (r : record) key :
  key ∈ dict_keys r → is_Some (dict_get r key).
Proof.
  unfold dict_keys. induction r as [|[k v] r IH]; simpl.
  - by intros ?%elem_of_nil.
  - intros [->|Hin]%elem_of_cons.
    + by rewrite decide_True.
    + destruct (decide (k = key)); [done|by apply IH].
Qed.

Lemma check_field_same (r : record) all_match key d :
  key ∈ dict_keys r →
  outcome (check_field r r all_match key) d = (Ok all_match, []).
Proof.
  intros [v Hv]%dict_get_key.
  unfold outcome, check_field, dict_contains, dict_getitem.
  rewrite Hv. rewrite bool_decide_eq_true_2 by done. run.
  rewrite bool_decide_eq_false_2 by (by intros []). run.
  destruct v as [| | | | |vs|]; simpl; try done. run.
  destruct (Z.eqb_spec (len vs) 0) as [Hz|]; run; [|done].
  rewrite Hz. done.
Qed.

Lemma for_fold_check_same (r : record) keys all_match d :
  keys ⊆ dict_keys r →
  outcome (for_fold keys (check_field r r) all_match) d = (Ok all_match, []).
Proof.
  induction keys as [|key keys IH]; intros Hsub; simpl; [done|].
  rewrite outcome_bind.
  2: apply check_field_reads_only.
  2: { intros ?. apply reads_only_for_fold. intros ??.
       apply check_field_reads_only. }
  rewrite check_field_same by (apply Hsub; by left).
  rewrite IH; [done|]. intros k Hk. apply Hsub. by right.
Qed.

(** X10: when record 0 of the subset is record 0 of the original, the
    integrity check raises nothing and reports exactly "structure matches"
    and "structure is valid": no field warning. *)
Theorem same_first_record_is_valid o s (r : record) d :
  rows o !! 0%nat = Some r → rows s !! 0%nat = Some r →
  outcome (check_sample_integrity o s) d =
    (Ok tt, [Print StructureMatches; Print SampleValid]).
Proof.
  intros Ho Hs.
  assert (∀ ds, rows ds !! 0%nat = Some r → py_index (rows ds) 0 = Ok r) as Hi.
  { intros ds Hds. unfold py_index.
    change (if 0 <? 0 then len (rows ds) + 0 else 0) with 0.
    change (0 <? 0) with false. change (Z.to_nat 0) with 0%nat.
    by rewrite Hds. }
  unfold check_sample_integrity.
  rewrite outcome_bind, outcome_lift, (Hi o Ho).
  2: apply reads_only_lift.
  2: { intros ?. repeat first [apply check_field_reads_only | reads_only_step]. }
  rewrite outcome_bind, outcome_lift, (Hi s Hs).
  2: apply reads_only_lift.
  2: { intros ?. repeat first [apply check_field_reads_only | reads_only_step]. }
  rewrite bool_decide_eq_true_2 by done.
  rewrite outcome_bind, outcome_print.
  2: apply reads_only_print.
  2: { intros ?. repeat first [apply check_field_reads_only | reads_only_step]. }
  rewrite outcome_bind.
  2: { apply reads_only_for_fold. intros ??. apply check_field_reads_only. }
  2: { intros ?. repeat reads_only_step. }
  by rewrite for_fold_check_same by (by intros ??).
Qed.

Lemma check_field_outcome orig sub all_match key d :
  Forall is_field_warning (outcome (check_field orig sub all_match key) d).2 ∧
  ((outcome (check_field orig sub all_match key) d).1 = Ok true →
   all_match = true ∧ (outcome (check_field orig sub all_match key) d).2 = []).
Proof.
  unfold outcome, check_field, dict_getitem.
  destruct (dict_contains sub key); run; [|by split; [constructor|intros [=]]].
  destruct (dict_get orig key) as [ov|]; run; [|by split; [constructor|]].
  destruct (dict_get sub key) as [sv|]; run; [|by split; [constructor|]].
  destruct (bool_decide (type_of ov ≠ type_of sv)); run;
    destruct (is_list ov); run;
    try (by split; [repeat constructor|done]);
    try (by split; [repeat constructor|intros [=]]);
    destruct (py_len sv) as [sl|]; run;
    try (by split; [repeat constructor|done]);
    destruct (sl =? 0); run;
    try (by split; [repeat constructor|done]);
    try (by split; [repeat constructor|intros [=]]);
    destruct (py_len ov) as [ol|]; run;
    try (by split; [repeat constructor|done]);
    destruct (0 <? ol); run;
    try (by split; [repeat constructor|done]);
    try (by split; [repeat constructor|intros [=]]).
Qed.

Lemma for_fold_check_outcome orig sub keys all_match d :
  Forall is_field_warning
    (outcome (for_fold keys (check_field orig sub) all_match) d).2 ∧
  ((outcome (for_fold keys (check_field orig sub) all_match) d).1 = Ok true →
   all_match = true ∧
   (outcome (for_fold keys (check_field orig sub) all_match) d).2 = []).
Proof.
  revert all_match. induction keys as [|key keys IH]; intros all_match; simpl.
  { split; [constructor|]. by intros [= ->]. }
  rewrite outcome_bind.
  2: apply check_field_reads_only.
  2: { intros ?. apply reads_only_for_fold. intros ??.
       apply check_field_reads_only. }
  destruct (check_field_outcome orig sub all_match key d) as [Hw Hok].
  destruct (outcome (check_field orig sub all_match key) d) as [[b|e] evs];
    simpl in *; [|by split].
  destruct (IH b) as [Hw' Hok']. split.
  - by apply Forall_app.
  - intros Hres. destruct (Hok' Hres) as [-> Hnil].
    destruct (Hok eq_refl) as [-> ->]. by rewrite Hnil.
Qed.

(** X11: "structure is valid" is printed only after a loop without any
    field warning, and a differing set of keys alone does not prevent it:
    a report with that line is the structure line followed by it, and
    nothing else. *)
Theorem sample_valid_means_no_field_warning o s d :
  Print SampleValid ∈ (outcome (check_sample_integrity o s) d).2 →
  outcome (check_sample_integrity o s) d =
    (Ok tt, [Print StructureMatches; Print SampleValid]) ∨
  outcome (check_sample_integrity o s) d =
    (Ok tt, [Print WarnStructureDiffers; Print SampleValid]).
Proof.
  unfold check_sample_integrity.
  rewrite outcome_bind, outcome_lift.
  2: apply reads_only_lift.
  2: { intros ?. repeat first [apply check_field_reads_only | reads_only_step]. }
  destruct (py_index (rows o) 0) as [orig|]; simpl; [|by intros ?%elem_of_nil].
  rewrite outcome_bind, outcome_lift.
  2: apply reads_only_lift.
  2: { intros ?. repeat first [apply check_field_reads_only | reads_only_step]. }
  destruct (py_index (rows s) 0) as [sub|]; simpl; [|by intros ?%elem_of_nil].
  rewrite outcome_bind.
  2: { repeat reads_only_step. }
  2: { intros ?. repeat first [apply check_field_reads_only | reads_only_step]. }
  rewrite outcome_bind.
  2: { apply reads_only_for_fold. intros ??. apply check_field_reads_only. }
  2: { intros ?. repeat reads_only_step. }
  destruct (for_fold_check_outcome orig sub (dict_keys orig) true d)
    as [Hw Hok].
  assert (∀ l, Forall is_field_warning l → Print SampleValid ∉ l) as Hnot.
  { intros l Hl Hin. rewrite Forall_forall in Hl. apply (Hl _ Hin). }
  destruct (outcome (for_fold (dict_keys orig) (check_field orig sub) true) d)
    as [[[]|e] evs]; simpl in *.
  - destruct (Hok eq_refl) as [_ ->]. intros _.
    destruct (bool_decide (key_set orig = key_set sub)); [by left|by right].
  - intros Hin. exfalso.
    destruct (bool_decide (key_set orig = key_set sub)); simpl in Hin;
      apply elem_of_cons in Hin as [[=]|Hin];
      rewrite app_nil_r in Hin; by apply (Hnot evs).
  - intros Hin. exfalso.
    destruct (bool_decide (key_set orig = key_set sub)); simpl in Hin;
      apply elem_of_cons in Hin as [[=]|Hin]; by apply (Hnot evs).
Qed.

End integrity.

(** ** The preview of the first records *)

Section preview.
Import Verifier.
Implicit Types d : gmap string node.

Definition is_header (ev : event message) : Prop :=
  match ev with Print (SampleHeader _) => True | _ => False end.

Lemma header_not_among (l : list (event message)) h :
  Forall (λ ev, ¬ is_header ev) l → Print (SampleHeader h) ∉ l.
Proof.
  intros Hl Hin. rewrite Forall_forall in Hl. by apply (Hl _ Hin).
Qed.

Lemma display_field_events kv d :
  Forall (λ ev, ¬ is_header ev) (outcome (display_field kv) d).2.
Proof.
  destruct kv as [key v]. unfold outcome, display_field.
  destruct v as [| | | | |vs|]; run;
    try (by repeat constructor; intros []).
  destruct (py_index vs 0) as [first|]; run; [|by constructor].
  destruct (is_str first); [destruct (5 <? len vs)|destruct (is_number first)];
    run; by repeat constructor; intros [].
Qed.

Lemma display_record_events (row : record) d :
  Forall (λ ev, ¬ is_header ev)
    (outcome (for_each (dict_items row) display_field) d).2.
Proof.
  unfold dict_items. induction row as [|kv row IH]; simpl; [by constructor|].
  rewrite outcome_bind
    by auto using display_field_reads_only, reads_only_for_each.
  pose proof (display_field_events kv d) as Hkv.
  destruct (outcome (display_field kv) d) as [[[]|e] evs]; simpl in *;
    [by apply Forall_app|done].
Qed.

(** One turn of the loop over the previewed records. *)
Definition preview_record (rs : list record) (i : Z) : M message unit :=
  print (SampleHeader (i + 1));;
  sample ← lift (py_index rs i);
  for_each (dict_items sample) display_field.

Lemma preview_record_reads_only rs i : reads_only (preview_record rs i).
Proof.
  unfold preview_record.
  repeat first [apply display_field_reads_only | reads_only_step].
Qed.

Lemma outcome_preview_record rs i row d :
  py_index rs i = Ok row →
  outcome (preview_record rs i) d =
    ((outcome (for_each (dict_items row) display_field) d).1,
     Print (SampleHeader (i + 1)) ::
     (outcome (for_each (dict_items row) display_field) d).2).
Proof.
  intros Hi. unfold preview_record.
  rewrite outcome_bind, outcome_print.
  2: apply reads_only_print.
  2: { intros _.
       repeat first [apply display_field_reads_only | reads_only_step]. }
  rewrite outcome_bind, outcome_lift, Hi.
  2: apply reads_only_lift.
  2: { intros ?. apply reads_only_for_each, display_field_reads_only. }
  done.
Qed.

Lemma preview_headers (rs : list record) d (k : nat) (a : Z) :
  0 ≤ a → a + Z.of_nat k ≤ len rs →
  let out := outcome (for_each (seqZ a (Z.of_nat k)) (preview_record rs)) d in
  (∀ h, Print (SampleHeader h) ∈ out.2 → a + 1 ≤ h ≤ a + Z.of_nat k) ∧
  (out.1 = Ok tt →
   ∀ h, a + 1 ≤ h ≤ a + Z.of_nat k → Print (SampleHeader h) ∈ out.2) ∧
  (∀ (i : nat) row,
     a ≤ Z.of_nat i → rs !! i = Some row → has_empty_list row = true →
     ∀ h, Print (SampleHeader h) ∈ out.2 → h ≤ Z.of_nat i + 1).
Proof.
  revert a. induction k as [|k IH]; intros a Ha Hk.
  { rewrite seqZ_nil by done. simpl. split_and!.
    - by intros h ?%elem_of_nil.
    - intros _ h ?. lia.
    - by intros i row _ _ _ h ?%elem_of_nil. }
  rewrite seqZ_cons by lia.
  replace (Z.pred (Z.of_nat (S k))) with (Z.of_nat k) by lia.
  destruct (py_index_in_range rs a ltac:(lia)) as (r & Hidx & Hr).
  cbn [for_each]. rewrite outcome_bind.
  2: apply preview_record_reads_only.
  2: { intros _. apply reads_only_for_each. intros i.
       apply preview_record_reads_only. }
  rewrite (outcome_preview_record rs a r d Hidx).
  pose proof (display_record_result r d) as Hres.
  pose proof (display_record_events r d) as Hev.
  destruct (outcome (for_each (dict_items r) display_field) d) as [res evs].
  simpl in Hres, Hev.
  destruct (IH (Z.succ a) ltac:(lia) ltac:(lia)) as (IH1 & IH2 & IH3).
  destruct (has_empty_list r) eqn:Hempty; subst res; cbn [fst snd].
  - (* this record raises: the loop ends here *)
    split_and!.
    + intros h [[= ->]|Hin]%elem_of_cons; [lia|].
      by apply header_not_among in Hin.
    + done.
    + intros i row Hi _ _ h [[= ->]|Hin]%elem_of_cons; [lia|].
      by apply header_not_among in Hin.
  - split_and!.
    + intros h [[= ->]|[Hin|Hin]%elem_of_app]%elem_of_cons; [lia| |].
      * by apply header_not_among in Hin.
      * apply IH1 in Hin. lia.
    + intros Hok h Hh. apply elem_of_cons.
      destruct (decide (h = a + 1)) as [->|]; [by left|right].
      apply elem_of_app. right. apply IH2; [done|lia].
    + intros i row Hi Hrow Hrowempty h
        [[= ->]|[Hin|Hin]%elem_of_app]%elem_of_cons; [lia| |].
      * by apply header_not_among in Hin.
      * assert (Z.of_nat i ≠ a) as Hne.
        { intros <-. rewrite Nat2Z.id in Hr. congruence. }
        apply (IH3 i row); [lia|done..].
Qed.

Lemma display_samples_unfold s n :
  display_samples s n =
  for_each (seqZ 0 (Z.min n (len (rows s)))) (preview_record (rows s)).
Proof. reflexivity. Qed.

(** X12: the preview prints at most [min(show_samples, size)] record
    headers, numbered from 1, and prints all of them when it does not
    raise. *)
Theorem preview_shows_first_records s n d :
  (∀ h, Print (SampleHeader h) ∈ (outcome (display_samples s n) d).2 →
        1 ≤ h ≤ Z.min n (len (rows s))) ∧
  ((outcome (display_samples s n) d).1 = Ok tt →
   ∀ h, 1 ≤ h ≤ Z.min n (len (rows s)) →
        Print (SampleHeader h) ∈ (outcome (display_samples s n) d).2).
Proof.
  rewrite display_samples_unfold.
  destruct (decide (Z.min n (len (rows s)) ≤ 0)) as [Hn|Hn].
  { rewrite seqZ_nil by done. simpl. split.
    - by intros h ?%elem_of_nil.
    - intros _ h ?. lia. }
  rewrite <-(Z2Nat.id (Z.min n (len (rows s)))) by lia.
  destruct (preview_headers (rows s) d (Z.to_nat (Z.min n (len (rows s)))) 0)
    as (H1 & H2 & _); [lia..|].
  split.
  - intros h Hin. apply H1 in Hin. lia.
  - intros Hok h Hh. apply H2; [done|lia].
Qed.

(** X13: the [try] encloses the whole loop, so the preview ends at the
    first record that raises: when record [i] holds an empty list, no
    header beyond the one of record [i] is printed. *)
Theorem preview_stops_at_first_error s n d (i : nat) (row : record) :
  rows s !! i = Some row → has_empty_list row = true →
  ∀ h, Print (SampleHeader h) ∈ (outcome (display_samples s n) d).2 →
       h ≤ Z.of_nat i + 1.
Proof.
  intros Hrow Hempty h. rewrite display_samples_unfold.
  destruct (decide (Z.min n (len (rows s)) ≤ 0)) as [Hn|Hn].
  { rewrite seqZ_nil by done. by intros ?%elem_of_nil. }
  rewrite <-(Z2Nat.id (Z.min n (len (rows s)))) by lia.
  destruct (preview_headers (rows s) d (Z.to_nat (Z.min n (len (rows s)))) 0)
    as (_ & _ & H3); [lia..|].
  apply (H3 i row); [lia|done..].
Qed.

End preview.

(** ** What the loop over the fields reports *)

Section field_warnings.
Import Verifier.
Implicit Types d : gmap string node.

Lemma py_index_first {A} (l : list A) x : l !! 0%nat = Some x → py_index l 0 = Ok x.
Proof.
  intros Hx. unfold py_index.
  change (if 0 <? 0 then len l + 0 else 0) with 0.
  change (0 <? 0) with false. change (Z.to_nat 0) with 0%nat.
  by rewrite Hx.
Qed.

(** The integrity check, once both records are read: the structure line,
    the events of the loop, and "valid" if the loop ends with [all_match]. *)
Lemma outcome_check_sample_integrity o s d (orig sub : record) :
  rows o !! 0%nat = Some orig → rows s !! 0%nat = Some sub →
  outcome (check_sample_integrity o s) d =
    let loop := outcome (for_fold (dict_keys orig) (check_field orig sub) true) d in
    (match loop.1 with Ok _ => Ok tt | Raise e => Raise e end,
     Print (if bool_decide (key_set orig = key_set sub)
            then StructureMatches else WarnStructureDiffers) ::
     loop.2 ++ match loop.1 with Ok true => [Print SampleValid] | _ => [] end).
Proof.
  intros Ho Hs. unfold check_sample_integrity.
  rewrite outcome_bind, outcome_lift, (py_index_first _ _ Ho).
  2: apply reads_only_lift.
  2: { intros ?. repeat first [apply check_field_reads_only | reads_only_step]. }
  rewrite outcome_bind, outcome_lift, (py_index_first _ _ Hs).
  2: apply reads_only_lift.
  2: { intros ?. repeat first [apply check_field_reads_only | reads_only_step]. }
  rewrite outcome_bind.
  2: { repeat reads_only_step. }
  2: { intros ?. repeat first [apply check_field_reads_only | reads_only_step]. }
  rewrite outcome_bind.
  2: { apply reads_only_for_fold. intros ??. apply check_field_reads_only. }
  2: { intros ?. repeat reads_only_step. }
  destruct (outcome (for_fold (dict_keys orig) (check_field orig sub) true) d)
    as [[[]|e] evs]; destruct (bool_decide (key_set orig = key_set sub));
    simpl; by rewrite ?app_nil_r.
Qed.

Lemma check_field_absent orig sub all_match key d :
  dict_get sub key = None →
  outcome (check_field orig sub all_match key) d = (Ok all_match, []).
Proof.
  intros Hk. unfold outcome, check_field, dict_contains. rewrite Hk.
  by rewrite bool_decide_eq_false_2 by (by intros [? ?]).
Qed.

Lemma for_fold_check_absent orig sub keys all_match d :
  (∀ key, key ∈ keys → dict_get sub key = None) →
  outcome (for_fold keys (check_field orig sub) all_match) d =
    (Ok all_match, []).
Proof.
  induction keys as [|key keys IH]; intros Habs; simpl; [done|].
  rewrite outcome_bind.
  2: apply check_field_reads_only.
  2: { intros ?. apply reads_only_for_fold. intros ??.
       apply check_field_reads_only. }
  rewrite check_field_absent by (apply Habs; by left).
  rewrite IH; [done|]. intros k Hk. apply Habs. by right.
Qed.

(** X15: a field of the original's record 0 that the subset's record 0
    does not have is skipped: when the subset's record has none of them,
    the check prints the structure line and then "structure is valid",
    without a field warning. *)
Theorem absent_fields_are_skipped o s d (orig sub : record) :
  rows o !! 0%nat = Some orig → rows s !! 0%nat = Some sub →
  (∀ key, key ∈ dict_keys orig → dict_get sub key = None) →
  outcome (check_sample_integrity o s) d =
    (Ok tt,
     [Print (if bool_decide (key_set orig = key_set sub)
             then StructureMatches else WarnStructureDiffers);
      Print SampleValid]).
Proof.
  intros Ho Hs Habs.
  rewrite (outcome_check_sample_integrity o s d orig sub Ho Hs).
  by rewrite for_fold_check_absent.
Qed.

Lemma check_field_warns orig sub all_match key d ov sv :
  dict_get orig key = Some ov → dict_get sub key = Some sv →
  (type_of ov ≠ type_of sv →
   Print (WarnTypeMismatch key (type_of ov) (type_of sv)) ∈
     (outcome (check_field orig sub all_match key) d).2) ∧
  (∀ x vs, ov = VList (x :: vs) → sv = VList [] →
   Print (WarnEmptyList key) ∈
     (outcome (check_field orig sub all_match key) d).2).
Proof.
  intros Hov Hsv.
  unfold outcome, check_field, dict_contains, dict_getitem.
  rewrite Hov, Hsv. rewrite bool_decide_eq_true_2 by done. run. split.
  - intros Hne. rewrite (bool_decide_eq_true_2 _ Hne). run.
    destruct (is_list ov); run; [|by left].
    destruct (py_len sv) as [sl|]; run; [|by left].
    destruct (sl =? 0); run; [|by left].
    destruct (py_len ov) as [ol|]; run; [|by left].
    destruct (0 <? ol); run; by left.
  - intros x vs -> ->. simpl.
    rewrite ?bool_decide_eq_false_2 by (by intros []). run.
    replace (0 <? len (x :: vs)) with true
      by (symmetry; apply Z.ltb_lt; unfold len; simpl; lia).
    run. by left.
Qed.

Lemma for_fold_check_warns orig sub keys all_match d key ov sv :
  key ∈ keys →
  dict_get orig key = Some ov → dict_get sub key = Some sv →
  (∃ b, (outcome (for_fold keys (check_field orig sub) all_match) d).1 = Ok b) →
  (type_of ov ≠ type_of sv →
   Print (WarnTypeMismatch key (type_of ov) (type_of sv)) ∈
     (outcome (for_fold keys (check_field orig sub) all_match) d).2) ∧
  (∀ x vs, ov = VList (x :: vs) → sv = VList [] →
   Print (WarnEmptyList key) ∈
     (outcome (for_fold keys (check_field orig sub) all_match) d).2).
Proof.
  intros Hin Hov Hsv. revert all_match.
  induction keys as [|k keys IH]; intros all_match; [by apply elem_of_nil in Hin|].
  simpl. rewrite outcome_bind.
  2: apply check_field_reads_only.
  2: { intros ?. apply reads_only_for_fold. intros ??.
       apply check_field_reads_only. }
  pose proof (check_field_warns orig sub all_match key d ov sv Hov Hsv)
    as [Ht He].
  apply elem_of_cons in Hin as [<-|Hin].
  - destruct (outcome (check_field orig sub all_match key) d)
      as [[b|e] evs]; simpl in *; intros _.
    + split; [intros ?|intros ????]; apply elem_of_app; left; eauto.
    + split; eauto.
  - destruct (outcome (check_field orig sub all_match k) d)
      as [[b|e] evs]; simpl; [|by intros [? [=]]].
    intros Hok. destruct (IH Hin b Hok) as [IHt IHe].
    split; [intros ?|intros ????]; apply elem_of_app; right; eauto.
Qed.

(** X16: when the integrity check completes, every field that both
    records 0 have is covered: a value of another type in the subset is
    reported as a type mismatch, an empty list against a non-empty list as
    an empty-list warning, and in either case "structure is valid" is not
    printed. *)
Theorem field_differences_are_reported o s d (orig sub : record) key ov sv :
  rows o !! 0%nat = Some orig → rows s !! 0%nat = Some sub →
  key ∈ dict_keys orig →
  dict_get orig key = Some ov → dict_get sub key = Some sv →
  (outcome (check_sample_integrity o s) d).1 = Ok tt →
  (type_of ov ≠ type_of sv →
   Print (WarnTypeMismatch key (type_of ov) (type_of sv)) ∈
     (outcome (check_sample_integrity o s) d).2 ∧
   Print SampleValid ∉ (outcome (check_sample_integrity o s) d).2) ∧
  (∀ x vs, ov = VList (x :: vs) → sv = VList [] →
   Print (WarnEmptyList key) ∈ (outcome (check_sample_integrity o s) d).2 ∧
   Print SampleValid ∉ (outcome (check_sample_integrity o s) d).2).
Proof.
  intros Ho Hs Hkey Hov Hsv.
  rewrite (outcome_check_sample_integrity o s d orig sub Ho Hs).
  pose proof (for_fold_check_warns orig sub (dict_keys orig) true d key ov sv
                Hkey Hov Hsv) as Hwarn.
  pose proof (for_fold_check_outcome orig sub (dict_keys orig) true d)
    as [Hall Hvalid].
  destruct (outcome (for_fold (dict_keys orig) (check_field orig sub) true) d)
    as [[b|e] evs]; simpl in *; [|done]. intros _.
  destruct (Hwarn ltac:(by eexists)) as [Ht He].
  assert (∀ ev, ev ∈ evs → is_field_warning ev →
            ev ∈ Print (if bool_decide (key_set orig = key_set sub)
                        then StructureMatches else WarnStructureDiffers) ::
                 evs ++ (if b then [Print SampleValid] else []) ∧
            Print SampleValid ∉
              Print (if bool_decide (key_set orig = key_set sub)
                     then StructureMatches else WarnStructureDiffers) ::
              evs ++ (if b then [Print SampleValid] else [])) as Hboth.
  { intros ev Hev _. split.
    { apply elem_of_cons. right. apply elem_of_app. by left. }
    destruct b.
    { destruct (Hvalid eq_refl) as [_ ->]. by apply elem_of_nil in Hev. }
    rewrite app_nil_r. intros [Heq|Hin]%elem_of_cons.
    - by destruct (bool_decide _).
    - rewrite Forall_forall in Hall. apply (Hall _ Hin). }
  split.
  - intros Hne. by apply Hboth; [apply Ht|].
  - intros x vs Hx Hy. by apply Hboth; [eapply He|].
Qed.

End field_warnings.

(** ** The further properties at the sample data *)

Lemma create_subset_rerun_witness :
  ∃ r evs d',
    Creator.create_subset (H:=reference_sampler) "data" "out" (Some 2) None 42
      sample_world = (r, mkWorld d' ([] ++ evs)) ∧
    Creator.create_subset (H:=reference_sampler) "data" "out" (Some 2) None 42
      (mkWorld d' ([] ++ evs)) = (r, mkWorld d' (([] ++ evs) ++ evs)).
Proof.
  refine (create_subset_rerun (H:=reference_sampler)
            "data" "out" (Some 2) None 42 sample_world _).
  discriminate.
Defined.


Lemma create_subset_negative_count_witness :
  ∃ e evs,
    Creator.create_subset (H:=reference_sampler) "data" "out" (Some (-1)) None
      42 sample_world = (Raise e, mkWorld sample_disk ([] ++ evs)) ∧
    (e = ValueError ∨ e = OverflowError ∨ e = ZeroDivisionError).
Proof.
  destruct (create_subset_negative_count (H:=reference_sampler)
              "data" "out" (-1) None 42 sample_world sample_dataset)
    as (e & evs & Hrun & He & _).
  - reflexivity.
  - lia.
  - exists e, evs. split; [exact Hrun|exact He].
Defined.



Lemma verifier_main_exit_witness :
  ∃ code w',
    Verifier.main (Verifier.mkArgs "data" "empty" 3) sample_world =
      (Raise (SystemExit code), w') ∧
    (Verifier.fail_condition sample_disk "data" "empty" → code = 1).
Proof.
  destruct (verifier_main_exit (Verifier.mkArgs "data" "empty" 3) sample_world)
    as (code & w' & Hrun & _ & Hfail).
  - intros s. apply sample_loads.
  - exists code, w'. split; [exact Hrun|exact Hfail].
Defined.

Lemma same_first_record_is_valid_witness :
  outcome (Verifier.check_sample_integrity sample_dataset sample_dataset)
    sample_disk =
  (Ok tt, [Print Verifier.StructureMatches; Print Verifier.SampleValid]).
Proof.
  refine (same_first_record_is_valid sample_dataset sample_dataset
            [("src", VStr "a"); ("tgt", VList [VInt 1; VInt 2])]
            sample_disk _ _); reflexivity.
Defined.

Lemma sample_valid_means_no_field_warning_witness :
  outcome (Verifier.check_sample_integrity sample_dataset sample_dataset)
    sample_disk =
    (Ok tt, [Print Verifier.StructureMatches; Print Verifier.SampleValid]) ∨
  outcome (Verifier.check_sample_integrity sample_dataset sample_dataset)
    sample_disk =
    (Ok tt, [Print Verifier.WarnStructureDiffers; Print Verifier.SampleValid]).
Proof.
  refine (sample_valid_means_no_field_warning sample_dataset sample_dataset
            sample_disk _).
  vm_compute. apply list_elem_of_further, list_elem_of_here.
Defined.

Lemma preview_shows_first_records_witness :
  Print (Verifier.SampleHeader 1) ∈
    (outcome (Verifier.display_samples mistyped_subset 3) sample_disk).2.
Proof.
  refine (proj2 (preview_shows_first_records mistyped_subset 3 sample_disk)
            _ 1 _).
  - reflexivity.
  - vm_compute. split; discriminate.
Defined.

Lemma preview_stops_at_first_error_witness : 1 ≤ Z.of_nat 0 + 1.
Proof.
  refine (preview_stops_at_first_error sample_subset 3 sample_disk 0
            [("src", VStr "c"); ("tgt", VList [])] _ _ 1 _).
  - reflexivity.
  - reflexivity.
  - vm_compute. apply list_elem_of_here.
Defined.

(** A subset whose record 0 has other fields than the original's. *)
Definition renamed_subset : Dataset :=
  mkDataset ["source"] [ [("source", VStr "a")] ].

Lemma absent_fields_are_skipped_witness :
  outcome (Verifier.check_sample_integrity sample_dataset renamed_subset)
    sample_disk =
  (Ok tt, [Print Verifier.WarnStructureDiffers; Print Verifier.SampleValid]).
Proof.
  refine (absent_fields_are_skipped sample_dataset renamed_subset sample_disk
            [("src", VStr "a"); ("tgt", VList [VInt 1; VInt 2])]
            [("source", VStr "a")] _ _ _).
  - reflexivity.
  - reflexivity.
  - intros key Hkey. simpl in Hkey.
    apply elem_of_cons in Hkey as [->|Hkey]; [reflexivity|].
    apply list_elem_of_singleton in Hkey as ->. reflexivity.
Defined.

Lemma field_differences_are_reported_witness :
  Print (Verifier.WarnEmptyList "tgt") ∈
    (outcome (Verifier.check_sample_integrity sample_dataset sample_subset)
       sample_disk).2 ∧
  Print Verifier.SampleValid ∉
    (outcome (Verifier.check_sample_integrity sample_dataset sample_subset)
       sample_disk).2.
Proof.
  refine (proj2 (field_differences_are_reported sample_dataset sample_subset
                   sample_disk
                   [("src", VStr "a"); ("tgt", VList [VInt 1; VInt 2])]
                   [("src", VStr "c"); ("tgt", VList [])]
                   "tgt" (VList [VInt 1; VInt 2]) (VList [])
                   _ _ _ _ _ _)
            (VInt 1) [VInt 2] eq_refl eq_refl).
  - reflexivity.
  - reflexivity.
  - simpl. apply list_elem_of_further, list_elem_of_here.
  - reflexivity.
  - reflexivity.
  - reflexivity.
Defined.
